(** * umus_ftp: a shallow embedding of [src/umus_ftp/core.py]

    The module is a client-side bulk transfer layer over [ftplib].  The
    embedding has four layers:

    - [PyStr]: the Python string operations the module applies to paths
      ([str.split], [str.join], [str.rsplit], [str.replace],
      [os.path.dirname]);
    - the world the module runs in: remote file stores reached through
      FTP sessions, the local file system, the configuration [CFG], the
      transcript of commands sent, and the [LOG];
    - the functions of [core.py], in an error-and-state monad over that
      world, one definition per source function and under its name;
    - the process pool of [_ftp_multiple], as a step function over worker
      processes driven by a schedule.

    The notions the statements are written in follow the embedding, and
    the properties of the module, one section per function, come last. *)

From Stdlib Require Import Ascii String List Arith Lia Bool.
From stdpp Require Import base option list strings gmap fin_maps.

Local Open Scope string_scope.
Local Open Scope list_scope.

(** ** Python string operations *)

Module PyStr.

Definition slash : ascii := "/"%char.

(** [s.startswith(p)] *)
Fixpoint startswith (p s : string) : bool :=
  match p, s with
  | EmptyString, _ => true
  | String a p', String b s' => if Ascii.eqb a b then startswith p' s' else false
  | String _ _, EmptyString => false
  end.

(** [s.split(sep)] for a one-character separator: never the empty list. *)
Fixpoint split (sep : ascii) (s : string) : list string :=
  match s with
  | EmptyString => [EmptyString]
  | String c s' =>
      if Ascii.eqb c sep then EmptyString :: split sep s'
      else match split sep s' with
           | hd :: tl => String c hd :: tl
           | [] => [String c EmptyString]
           end
  end.

(** [sep.join(l)] *)
Fixpoint join (sep : string) (l : list string) : string :=
  match l with
  | [] => EmptyString
  | [x] => x
  | x :: l' => x ++ sep ++ join sep l'
  end.

(** [s.rsplit(sep, 1)], as [Some (before, after)] around the last
    separator, or [None] when [s] has no separator (Python then returns the
    one-element list [[s]]). *)
Fixpoint rsplit1 (sep : ascii) (s : string) : option (string * string) :=
  match s with
  | EmptyString => None
  | String c s' =>
      match rsplit1 sep s' with
      | Some (a, b) => Some (String c a, b)
      | None => if Ascii.eqb c sep then Some (EmptyString, s') else None
      end
  end.

(** [s.rsplit(sep, 1)[0]] *)
Definition rsplit1_head (sep : ascii) (s : string) : string :=
  match rsplit1 sep s with
  | Some (a, _) => a
  | None => s
  end.

(** [s.replace(old, new)] for a non-empty [old]: scan left to right, rewrite
    every non-overlapping occurrence.  [skip] counts the characters of the
    occurrence just rewritten that are still to be passed over. *)
Fixpoint replace_go (old new : string) (skip : nat) (s : string) : string :=
  match s with
  | EmptyString => EmptyString
  | String c s' =>
      match skip with
      | S k => replace_go old new k s'
      | O =>
          if startswith old s
          then new ++ replace_go old new (String.length old - 1) s'
          else String c (replace_go old new 0 s')
      end
  end.

(** with an empty [old], Python puts [new] before every character and at
    the end. *)
Fixpoint replace_empty (new : string) (s : string) : string :=
  match s with
  | EmptyString => new
  | String c s' => new ++ String c (replace_empty new s')
  end.

Definition replace (s old new : string) : string :=
  match old with
  | EmptyString => replace_empty new s
  | String _ _ => replace_go old new 0 s
  end.

(** [s.rstrip('/')] *)
Fixpoint rstrip_slash (s : string) : string :=
  match s with
  | EmptyString => EmptyString
  | String c s' =>
      match rstrip_slash s' with
      | EmptyString => if Ascii.eqb c slash then EmptyString else String c EmptyString
      | r => String c r
      end
  end.

(** [posixpath.dirname]: the head up to and including the last slash, with
    its trailing slashes removed unless it consists of slashes only. *)
Definition dirname (p : string) : string :=
  match rsplit1 slash p with
  | None => EmptyString
  | Some (a, _) =>
      match rstrip_slash a with
      | EmptyString => a ++ "/"
      | r => r
      end
  end.

Definition is_abs (p : string) : bool := startswith "/" p.

End PyStr.

(** ** The world

    [ftplib], the servers, the local file system and the configuration are
    collaborators of the module, not part of it.  They are modelled as
    follows; each choice is the simplest one under which the calls of
    [core.py] behave as they do against a conventional FTP server.

    - A file store maps path strings to nodes.  Paths are compared as
      strings (no normalisation of [..] or doubled slashes); the root
      ["/"] is always a directory.
    - A session has a host, a current-directory cursor, and an open flag.
      A command on a closed session raises before anything is sent.
    - [CWD] succeeds exactly on directories and otherwise answers 550
      ([error_perm]); [NLST] of a file answers the file itself, of a
      directory its children as full paths, of a missing path nothing;
      [MKD] and [STOR] need the parent directory to exist. *)

Inductive node : Type :=
| File (content : string)
| Dir.

Abbreviation FS := (gmap string node).

Inductive exn : Type :=
| error_perm
| FileExistsError
| FileNotFoundError
| IsADirectoryError
| NotADirectoryError
| KeyError
| OSError
| AttributeError
| UnboundLocalError
| ValueError
| RecursionError.

Record Login : Type := mkLogin {
  l_host : string;
  l_user : string;
  l_passwd : string;
  l_tls : option bool
}.

Record Session : Type := mkSession {
  s_host : string;
  s_cwd : string;
  s_open : bool;
  s_binary : bool;
  s_tls : bool
}.

(** [CFG]: the server registry (credential blobs, here already decrypted)
    and the two optional counts read with [CFG.get(_, 5)].  The count of
    retries is an integer of either sign: it is handed to [range]. *)
Record Config : Type := mkConfig {
  cfg_server : gmap string Login;
  cfg_retries : option Z;
  cfg_connections : option nat
}.

Inductive Cmd : Type :=
| CONNECT (host : string)
| PROT_P
| PWD
| CWD (p : string)
| NLST (p : string)
| MKD (p : string)
| TYPE_I
| RETR (p : string)
| STOR (p : string)
| QUIT.

Inductive OpenMode : Type := rb | wb.

(** What an observer of the process sees: commands sent on a session
    (handle = index into [sessions]) and local files opened. *)
Inductive Event : Type :=
| Sent (h : nat) (c : Cmd)
| Opened (path : string) (mode : OpenMode).

Inductive LogRecord : Type :=
| LogWelcome (h : nat)
| LogRetry (n : nat) (src : string)
| LogCreateFtpDir (dir : string)
| LogCreateDirs (dst : string)
| LogDownloading (src dst : string) (overwrite : bool)
| LogUploading (src dst : string) (overwrite : bool).

Record World : Type := mkWorld {
  hosts : gmap string FS;
  sessions : list Session;
  local : FS;
  CFG : Config;
  trace : list Event;
  LOG : list LogRecord
}.

Definition set_hosts (x : gmap string FS) (w : World) : World :=
  mkWorld x (sessions w) (local w) (CFG w) (trace w) (LOG w).

Definition set_sessions (x : list Session) (w : World) : World :=
  mkWorld (hosts w) x (local w) (CFG w) (trace w) (LOG w).

Definition set_local (x : FS) (w : World) : World :=
  mkWorld (hosts w) (sessions w) x (CFG w) (trace w) (LOG w).

Definition set_trace (x : list Event) (w : World) : World :=
  mkWorld (hosts w) (sessions w) (local w) (CFG w) x (LOG w).

Definition set_LOG (x : list LogRecord) (w : World) : World :=
  mkWorld (hosts w) (sessions w) (local w) (CFG w) (trace w) x.

Definition emit (e : Event) (w : World) : World :=
  set_trace (trace w ++ [e]) w.

Definition fs_of (w : World) (host : string) : FS :=
  default ∅ (hosts w !! host).

Definition set_fs (host : string) (fs : FS) (w : World) : World :=
  set_hosts (<[host := fs]> (hosts w)) w.

Definition set_cwd (c : string) (s : Session) : Session :=
  mkSession (s_host s) c (s_open s) (s_binary s) (s_tls s).

Definition set_open (b : bool) (s : Session) : Session :=
  mkSession (s_host s) (s_cwd s) b (s_binary s) (s_tls s).

Definition set_binary (b : bool) (s : Session) : Session :=
  mkSession (s_host s) (s_cwd s) (s_open s) b (s_tls s).

(** *** Paths on a server *)

(** The path a command argument denotes, given the cursor.  [ftplib.cwd]
    sends ["."] for the empty string.  The server of the model takes a
    name as it is written: it does not drop a trailing or a repeated
    slash and does not follow [".."]. *)
Definition resolve (c p : string) : string :=
  if String.eqb p "" || String.eqb p "." then c
  else if PyStr.is_abs p then p
  else if String.eqb c "/" then "/" ++ p
  else c ++ "/" ++ p.

Definition parent (k : string) : string :=
  match PyStr.rsplit1 PyStr.slash k with
  | Some (EmptyString, _) => "/"
  | Some (a, _) => a
  | None => k
  end.

Definition is_directory (fs : FS) (d : string) : bool :=
  if String.eqb d "/" then true
  else match fs !! d with
       | Some Dir => true
       | _ => false
       end.

Definition is_file (fs : FS) (d : string) : bool :=
  match fs !! d with
  | Some (File _) => true
  | _ => false
  end.

Definition children (fs : FS) (d : string) : list string :=
  filter (λ k, parent k = d ∧ k ≠ d) (map_to_list fs).*1.

Definition listing (fs : FS) (d : string) : list string :=
  if is_directory fs d then children fs d
  else if is_file fs d then [d]
  else [].

(** ** The monad: state over [World], with Python exceptions *)

Inductive res (A : Type) : Type :=
| Ok (a : A)
| Raise (e : exn).

Arguments Ok {A} a.
Arguments Raise {A} e.

Definition M (A : Type) : Type := World → res A * World.

Definition ret {A} (a : A) : M A := λ w, (Ok a, w).

Definition raise {A} (e : exn) : M A := λ w, (Raise e, w).

Definition bind {A B} (m : M A) (k : A → M B) : M B :=
  λ w, match m w with
       | (Ok a, w') => k a w'
       | (Raise e, w') => (Raise e, w')
       end.

(** [try: m  except E: handler] for the handlers of the module; [catches]
    says which exceptions the clause names. *)
Definition try_except {A} (m : M A) (catches : exn → bool) (handler : exn → M A) : M A :=
  λ w, match m w with
       | (Ok a, w') => (Ok a, w')
       | (Raise e, w') => if catches e then handler e w' else (Raise e, w')
       end.

Notation "x <~ c ; k" := (bind c (λ x, k))
  (at level 100, c at next level, right associativity).

Notation "c ;> k" := (bind c (λ _, k))
  (at level 100, right associativity).

Definition when (b : bool) (m : M unit) : M unit :=
  if b then m else ret tt.

Definition log (r : LogRecord) : M unit :=
  λ w, (Ok tt, set_LOG (LOG w ++ [r]) w).

(** ** [ftplib] *)

(** Send one command on session [h]: a closed session has no socket, and
    [ftplib] fails with [AttributeError] before anything is sent. *)
Definition command {A} (h : nat) (c : Cmd) (k : Session → M A) : M A :=
  λ w, match sessions w !! h with
       | Some s => if s_open s then k s (emit (Sent h c) w) else (Raise AttributeError, w)
       | None => (Raise AttributeError, w)
       end.

Definition put_session (h : nat) (s : Session) : M unit :=
  λ w, (Ok tt, set_sessions (<[h := s]> (sessions w)) w).

Definition ftp_pwd (h : nat) : M string :=
  command h PWD (λ s, ret (s_cwd s)).

Definition ftp_cwd (h : nat) (p : string) : M unit :=
  command h (CWD p) (λ s w,
    let d := resolve (s_cwd s) p in
    if is_directory (fs_of w (s_host s)) d
    then put_session h (set_cwd d s) w
    else (Raise error_perm, w)).

Definition ftp_nlst (h : nat) (p : string) : M (list string) :=
  command h (NLST p) (λ s w,
    (Ok (listing (fs_of w (s_host s)) (resolve (s_cwd s) p)), w)).

Definition ftp_mkd (h : nat) (p : string) : M unit :=
  command h (MKD p) (λ s w,
    let fs := fs_of w (s_host s) in
    let d := resolve (s_cwd s) p in
    if String.eqb d "/" then (Raise error_perm, w)
    else match fs !! d with
         | Some _ => (Raise error_perm, w)
         | None =>
             if is_directory fs (parent d)
             then (Ok tt, set_fs (s_host s) (<[d := Dir]> fs) w)
             else (Raise error_perm, w)
         end).

Definition ftp_type_i (h : nat) : M unit :=
  command h TYPE_I (λ s, put_session h (set_binary true s)).

(** [retrbinary('RETR src', callback)]: the bytes handed to the callback. *)
Definition ftp_retrbinary (h : nat) (src : string) : M string :=
  command h (RETR src) (λ s w,
    match fs_of w (s_host s) !! resolve (s_cwd s) src with
    | Some (File c) => (Ok c, w)
    | _ => (Raise error_perm, w)
    end).

Definition ftp_storbinary (h : nat) (dst : string) (content : string) : M unit :=
  command h (STOR dst) (λ s w,
    let fs := fs_of w (s_host s) in
    let d := resolve (s_cwd s) dst in
    if is_directory fs d then (Raise error_perm, w)
    else if is_directory fs (parent d)
         then (Ok tt, set_fs (s_host s) (<[d := File content]> fs) w)
         else (Raise error_perm, w)).

Definition ftp_quit (h : nat) : M unit :=
  command h QUIT (λ s, put_session h (set_open false s)).

(** ** [os], [os.path], [open] on the local file system *)

Definition local_exists (fs : FS) (p : string) : bool :=
  if String.eqb p "" then false
  else if String.eqb p "/" then true
  else match fs !! p with
       | Some _ => true
       | None => false
       end.

Definition os_path_isfile (p : string) : M bool :=
  λ w, (Ok (is_file (local w) p), w).

Definition os_path_exists (p : string) : M bool :=
  λ w, (Ok (local_exists (local w) p), w).

(** [os.mkdir]: the empty name is no path; a relative name without a
    directory part is created in the working directory. *)
Definition os_mkdir (p : string) : M unit :=
  λ w, let fs := local w in
       if String.eqb p "" then (Raise FileNotFoundError, w)
       else if local_exists fs p then (Raise FileExistsError, w)
       else let d := PyStr.dirname p in
            if String.eqb d "" || is_directory fs d
            then (Ok tt, set_local (<[p := Dir]> fs) w)
            else if is_file fs d then (Raise NotADirectoryError, w)
            else (Raise FileNotFoundError, w).

(** The prefixes of a path at its slashes, shortest first:
    ['/'.join(dirs[:i+1]) for i in range(len(dirs))]. *)
Definition prefixes (path : string) : list string :=
  let dirs := PyStr.split PyStr.slash path in
  map (λ i, PyStr.join "/" (take (S i) dirs)) (seq 0 (length dirs)).

Fixpoint for_each {A} (l : list A) (body : A → M unit) : M unit :=
  match l with
  | [] => ret tt
  | x :: l' => body x ;> for_each l' body
  end.

(** [os.makedirs(name)] with [exist_ok=False]: missing ancestors first,
    then the leaf, whose [mkdir] raises when it exists or is empty. *)
Definition os_makedirs (name : string) : M unit :=
  for_each (removelast (prefixes name)) (λ anc,
    ex <~ os_path_exists anc;
    if negb ex && negb (String.eqb anc "")
    then try_except (os_mkdir anc)
           (λ e, match e with FileExistsError => true | _ => false end)
           (λ _, ret tt)
    else ret tt) ;>
  os_mkdir name.

(** [open(dst, 'wb')] creates or truncates the file. *)
Definition open_wb (dst : string) : M unit :=
  λ w0, let w := emit (Opened dst wb) w0 in
        let fs := local w in
        if String.eqb dst "" then (Raise FileNotFoundError, w)
        else if is_directory fs dst then (Raise IsADirectoryError, w)
        else let d := PyStr.dirname dst in
             if String.eqb d "" || is_directory fs d
             then (Ok tt, set_local (<[dst := File ""]> fs) w)
             else (Raise FileNotFoundError, w).

Definition file_write (dst : string) (content : string) : M unit :=
  λ w, (Ok tt, set_local (<[dst := File content]> (local w)) w).

(** [open(src, 'rb')] followed by reading the whole file. *)
Definition open_rb (src : string) : M string :=
  λ w0, let w := emit (Opened src rb) w0 in
        match local w !! src with
        | Some (File c) => (Ok c, w)
        | Some Dir => (Raise IsADirectoryError, w)
        | None => (Raise FileNotFoundError, w)
        end.

(** [time.sleep(i**i + 0.2)] changes nothing in the world. *)
Definition time_sleep (i : nat) : M unit := ret tt.

(** ** [core.py] *)

(** [get_ftp(host, user, passwd, tls)]: a new session on [host], its cursor
    at the root.  Login always succeeds on a known host; an unknown host
    cannot be connected to. *)
Definition get_ftp (host user passwd : string) (tls : bool) : M nat :=
  λ w, match hosts w !! host with
       | None => (Raise OSError, w)
       | Some _ =>
           let h := length (sessions w) in
           let w1 := set_sessions (sessions w ++ [mkSession host "/" true false tls]) w in
           let w2 := emit (Sent h (CONNECT host)) w1 in
           let w3 := if tls then emit (Sent h PROT_P) w2 else w2 in
           (Ok h, set_LOG (LOG w3 ++ [LogWelcome h]) w3)
       end.

(** [get_ftp] on the fields of a login dict: [tls] defaults to [True] when
    the dict has none. *)
Definition get_ftp_login (login : Login) : M nat :=
  get_ftp (l_host login) (l_user login) (l_passwd login) (default true (l_tls login)).

Definition get_ftp_from_config (server : string) : M nat :=
  λ w, match cfg_server (CFG w) !! server with
       | None => (Raise KeyError, w)
       | Some login => get_ftp_login login w
       end.

(** Python truth of an optional string: [None] and [''] are false. *)
Definition truthy (s : option string) : option string :=
  match s with
  | Some EmptyString => None
  | x => x
  end.

(** The decorator [ftp_object]: when the call carries no [ftp], one is made
    from [server], else from [login], else from the server ['main']; then
    the function runs. *)
Definition ftp_object {A} (func : nat → M A)
    (ftp : option nat) (server : option string) (login : option Login) : M A :=
  match ftp with
  | Some h => func h
  | None =>
      match truthy server with
      | Some sv => h <~ get_ftp_from_config sv; func h
      | None =>
          match login with
          | Some l => h <~ get_ftp_login l; func h
          | None => h <~ get_ftp_from_config "main"; func h
          end
      end
  end.

(** *** class [Ftp] *)

Definition Ftp_init (ftp : option nat) (server : option string) (login : option Login) : M nat :=
  match ftp with
  | Some h => ret h
  | None =>
      match truthy server with
      | Some sv => get_ftp_from_config sv
      | None =>
          match login with
          | Some l => get_ftp_login l
          | None => get_ftp_from_config "main"
          end
      end
  end.

Definition Ftp_enter (self : nat) : M nat := ret self.

Definition Ftp_exit (self : nat) : M unit := ftp_quit self.

(** [with Ftp(ftp, server, login) as ftp: body].  [__exit__] returns
    [None], so an exception of the body is raised again after it; an
    exception of [__exit__] itself replaces it. *)
Definition with_Ftp {A} (ftp : option nat) (server : option string) (login : option Login)
    (body : nat → M A) : M A :=
  self <~ Ftp_init ftp server login;
  h <~ Ftp_enter self;
  λ w, match body h w with
       | (r, w1) =>
           match Ftp_exit self w1 with
           | (Ok _, w2) => (r, w2)
           | (Raise e, w2) => (Raise e, w2)
           end
       end.

(** *** Path operations *)

Definition ls (path : string) (ftp : option nat) (server : option string)
    (login : option Login) (close : bool) : M (list string) :=
  ftp_object (λ ftp,
    data <~ ftp_nlst ftp path;
    when close (ftp_quit ftp) ;>
    ret data) ftp server login.

Definition is_error_perm (e : exn) : bool :=
  match e with
  | error_perm => true
  | _ => false
  end.

Definition is_dir (path : string) (ftp : option nat) (server : option string)
    (login : option Login) (close : bool) : M bool :=
  ftp_object (λ ftp,
    current <~ ftp_pwd ftp;
    moved <~ try_except (ftp_cwd ftp path ;> ret true) is_error_perm (λ _, ret false);
    if moved : bool
    then ftp_cwd ftp current ;> when close (ftp_quit ftp) ;> ret true
    else when close (ftp_quit ftp) ;> ret false) ftp server login.

(** [close] is accepted and never used: [mkdirs] does not quit. *)
Definition mkdirs (path : string) (ftp : option nat) (server : option string)
    (login : option Login) (close : bool) : M unit :=
  ftp_object (λ ftp,
    for_each (prefixes path) (λ dir,
      if String.eqb dir "" then ret tt
      else
        d <~ is_dir dir (Some ftp) None None false;
        if d : bool then ret tt
        else log (LogCreateFtpDir dir) ;> ftp_mkd ftp dir)) ftp server login.

Definition download (src dst : string) (force makedirs : bool) (ftp : option nat)
    (server : option string) (login : option Login) (close : bool) : M unit :=
  ftp_object (λ ftp,
    ftp_type_i ftp ;>
    isf <~ os_path_isfile dst;
    if isf && negb force
    then when close (ftp_quit ftp) ;> raise FileExistsError
    else
      ex <~ os_path_exists (PyStr.dirname dst);
      when (negb ex && makedirs)
        (log (LogCreateDirs dst) ;> os_makedirs (PyStr.dirname dst)) ;>
      isf' <~ os_path_isfile dst;
      log (LogDownloading src dst (isf' && force)) ;>
      open_wb dst ;>
      content <~ ftp_retrbinary ftp src;
      file_write dst content ;>
      when close (ftp_quit ftp)) ftp server login.

Definition nonempty {A} (l : list A) : bool :=
  match l with
  | [] => false
  | _ :: _ => true
  end.

Definition upload (src dst : string) (force makedirs : bool) (ftp : option nat)
    (server : option string) (login : option Login) (close : bool) : M unit :=
  ftp_object (λ ftp,
    listed <~ (if force then ret false
               else l <~ ls dst (Some ftp) None None false; ret (nonempty l));
    if listed : bool
    then when close (ftp_quit ftp) ;> raise FileExistsError
    else
      let dir := PyStr.rsplit1_head PyStr.slash dst in
      when makedirs
        (d <~ is_dir dir None None None true;
         when (negb d) (mkdirs dir (Some ftp) None None false)) ;>
      l <~ ls dst (Some ftp) None None false;
      log (LogUploading src dst (nonempty l && force)) ;>
      ftp_type_i ftp ;>
      content <~ open_rb src;
      ftp_storbinary ftp dst content ;>
      when close (ftp_quit ftp)) ftp server login.

(** *** Workers

    A transfer item is the dict put on the queue. *)
Record Item : Type := mkItem {
  src : string;
  dst : string;
  force : bool;
  makedirs : bool
}.

Definition retries (w : World) : Z := default 5%Z (cfg_retries (CFG w)).

Definition connections (w : World) : nat := default 5 (cfg_connections (CFG w)).

(** The [for i in range(n): try ... break / except ... / else ...] of a
    worker, for one dequeued item; [op] is the single-item call and
    [result] the worker's list.  [range(n)] has [n] elements, and none when
    [n] is negative: the loop is entered with [Z.to_nat n] iterations to
    go.  Iteration [i] of [n] remaining:

    - the call returns: [break];
    - the call raises: log the retry, sleep, next iteration;
    - no iteration left: the [else] clause appends the source to [result]
      and evaluates [LOG.exception(e)].  The name [e] was bound by
      [except ... as e] and Python unbinds it when the [except] clause
      ends (and it was never bound when [n = 0]), so evaluating it raises
      [UnboundLocalError] after the append. *)
Fixpoint retry_loop (op : M unit) (source : string) (i n : nat)
    (result : list string) (w : World) : res unit * list string * World :=
  match n with
  | O => (Raise UnboundLocalError, result ++ [source], w)
  | S n' =>
      match op w with
      | (Ok _, w1) => (Ok tt, result, w1)
      | (Raise _, w1) =>
          match (log (LogRetry (S i) source) ;> time_sleep i) w1 with
          | (_, w2) => retry_loop op source (S i) n' result w2
          end
      end
  end.

(** Where a worker process stands in its function:
    [AtInit] before [Ftp(ftp, server, login)];
    [AtCheck] at [while not queue.empty()];
    [AtGet] at [queue.get(True)], which blocks while the queue is empty;
    [Exited] after leaving the [with] normally;
    [Crashed e] after leaving it with exception [e]. *)
Inductive pc : Type :=
| AtInit
| AtCheck (ftp : nat)
| AtGet (ftp : nat)
| Exited
| Crashed (e : exn).

(** A worker process: its place in the code and its own [result] list.
    The pool starts each worker as a separate process, so each has its own
    copy of the list it was started with. *)
Record Proc : Type := mkProc {
  p_pc : pc;
  p_result : list string
}.

(** Leaving the [with] block with outcome [r] of its body. *)
Definition leave_with (self : nat) (r : res unit) (w : World) : pc * World :=
  match Ftp_exit self w with
  | (Ok _, w') => (match r with Ok _ => Exited | Raise e => Crashed e end, w')
  | (Raise e', w') => (Crashed e', w')
  end.

(** One step of a worker whose single-item call is [op], applied to the
    session bound by [with ... as ftp] and to the dequeued item; [None]
    when the worker cannot move (finished, or blocked in [queue.get]). *)
Definition worker_step (op : nat → Item → M unit)
    (ftp : option nat) (server : option string) (login : option Login)
    (p : Proc) (queue : list Item) (w : World) : option (Proc * list Item * World) :=
  match p_pc p with
  | AtInit =>
      match (self <~ Ftp_init ftp server login; Ftp_enter self) w with
      | (Ok h, w') => Some (mkProc (AtCheck h) (p_result p), queue, w')
      | (Raise e, w') => Some (mkProc (Crashed e) (p_result p), queue, w')
      end
  | AtCheck h =>
      match queue with
      | [] => let '(pc', w') := leave_with h (Ok tt) w in
              Some (mkProc pc' (p_result p), queue, w')
      | _ :: _ => Some (mkProc (AtGet h) (p_result p), queue, w)
      end
  | AtGet h =>
      match queue with
      | [] => None
      | data :: queue' =>
          match retry_loop (op h data) (src data) 0 (Z.to_nat (retries w)) (p_result p) w with
          | (Ok _, result', w') => Some (mkProc (AtCheck h) result', queue', w')
          | (Raise e, result', w') =>
              let '(pc', w'') := leave_with h (Raise e) w' in
              Some (mkProc pc' result', queue', w'')
          end
      end
  | Exited => None
  | Crashed _ => None
  end.

Definition _ftp_worker_upload (ftp : option nat) (server : option string)
    (login : option Login) :=
  worker_step (λ h data,
    upload (src data) (dst data) (force data) (makedirs data)
      (Some h) server login false) ftp server login.

Definition _ftp_worker_download (ftp : option nat) (server : option string)
    (login : option Login) :=
  worker_step (λ h data,
    download (src data) (dst data) (force data) (makedirs data)
      (Some h) server login false) ftp server login.

(** *** The pool

    [Pool(n, worker, (queue, ftp, server, login, result))] starts [n]
    processes that each run [worker] on the shared queue.  Which process
    moves next is not fixed by the code: [run_pool] takes the order as a
    schedule, a list of worker indices.  A step of a worker that cannot
    move leaves the pool as it is.  The parent calls [pool.close()] right
    after starting the pool, so a process that has ended is taken as not
    replaced, and a worker's dealing with one item, all attempts included,
    is one step. *)
Record Pool : Type := mkPool {
  queue : list Item;
  procs : list Proc;
  world : World
}.

Definition Step : Type := Proc → list Item → World → option (Proc * list Item * World).

Definition pool_step (worker : Step) (i : nat) (st : Pool) : Pool :=
  match procs st !! i with
  | None => st
  | Some p =>
      match worker p (queue st) (world st) with
      | None => st
      | Some (p', q', w') => mkPool q' (<[i := p']> (procs st)) w'
      end
  end.

Fixpoint run_pool (worker : Step) (sched : list nat) (st : Pool) : Pool :=
  match sched with
  | [] => st
  | i :: sched' => run_pool worker sched' (pool_step worker i st)
  end.

Definition finished (p : Proc) : bool :=
  match p_pc p with
  | Exited | Crashed _ => true
  | _ => false
  end.

(** The dict [files] as its items in insertion order. *)
Definition start_pool (files : list (string * string)) (force makedirs : bool)
    (result : list string) (w : World) : Pool :=
  mkPool (map (λ '(s, d), mkItem s d force makedirs) files)
         (replicate (connections w) (mkProc AtInit result))
         w.

(** [_ftp_multiple]: fill the queue, start the pool, wait for the workers,
    return the parent's [result].  [pool.join()] returns when every worker
    process has ended; under a schedule that leaves a worker unfinished the
    call has not returned, which is the answer [None].  No statement of the
    parent touches [result] between [result = []] and [return result]. *)
Definition _ftp_multiple (sched : list nat) (files : list (string * string)) (typ : string)
    (force makedirs : bool) (ftp : option nat) (server : option string)
    (login : option Login) : M (option (list string)) :=
  λ w,
    let result : list string := [] in
    let worker : option Step :=
      if String.eqb typ "upload" then Some (_ftp_worker_upload ftp server login)
      else if String.eqb typ "download" then Some (_ftp_worker_download ftp server login)
      else None in
    match worker with
    | None => (Raise UnboundLocalError, w)
    | Some worker =>
        if Nat.eqb (connections w) 0 then (Raise ValueError, w)
        else
          let st := run_pool worker sched (start_pool files force makedirs result w) in
          if forallb finished (procs st)
          then (Ok (Some result), world st)
          else (Ok None, world st)
    end.

Definition download_multiple (sched : list nat) (files : list (string * string))
    (force makedirs : bool) (ftp : option nat) (server : option string)
    (login : option Login) : M (option (list string)) :=
  _ftp_multiple sched files "download" force makedirs ftp server login.

Definition upload_multiple (sched : list nat) (files : list (string * string))
    (force makedirs : bool) (ftp : option nat) (server : option string)
    (login : option Login) : M (option (list string)) :=
  _ftp_multiple sched files "upload" force makedirs ftp server login.

(** *** Tree walking and tree transfers *)

(** [d[k] = v] on a dict kept as its items in insertion order. *)
Fixpoint dict_set (k v : string) (d : list (string * string)) : list (string * string) :=
  match d with
  | [] => [(k, v)]
  | (k', v') :: d' =>
      if String.eqb k k' then (k, v) :: d' else (k', v') :: dict_set k v d'
  end.

Fixpoint dict_get (k : string) (d : list (string * string)) : option string :=
  match d with
  | [] => None
  | (k', v') :: d' => if String.eqb k k' then Some v' else dict_get k d'
  end.

Section Walk.

(** [re.search(pattern, path)] as truth value; the regular-expression
    engine is not part of the module. *)
Variable re_search : string → string → bool.

(** [pattern and re.search(pattern, path) or not pattern] *)
Definition selected (pattern : option string) (path : string) : bool :=
  match truthy pattern with
  | Some p => re_search p path
  | None => true
  end.

Fixpoint for_yield {A} (l : list A) (body : A → M (list string)) : M (list string) :=
  match l with
  | [] => ret []
  | x :: l' => ys <~ body x; zs <~ for_yield l' body; ret (ys ++ zs)
  end.

(** The generator [tree], run to exhaustion: the list of paths it yields.
    The recursive call passes [ftp], so the decorator hands it through
    unchanged and the recursion is on the function itself.  [limit] bounds
    the depth of the recursion, as the interpreter's recursion limit
    does. *)
Fixpoint tree_func (limit : nat) (source : string) (pattern : option string)
    (ftp : nat) (_depth : nat) : M (list string) :=
  match limit with
  | O => raise RecursionError
  | S limit' =>
      paths <~ ls source (Some ftp) None None false;
      ys <~ for_yield paths (λ path,
        d <~ is_dir path (Some ftp) None None false;
        if d : bool then tree_func limit' path pattern ftp (S _depth)
        else if selected pattern path then ret [path] else ret []);
      when (Nat.eqb _depth 0) (ftp_quit ftp) ;>
      ret ys
  end.

Definition tree (limit : nat) (source : string) (pattern : option string)
    (ftp : option nat) (server : option string) (login : option Login)
    (_depth : nat) : M (list string) :=
  ftp_object (λ ftp, tree_func limit source pattern ftp _depth) ftp server login.

(** [{path: path.replace(src, dst) for path in ...}] *)
Definition rewrite_paths (source dest : string) (paths : list string) : list (string * string) :=
  fold_left (λ files path, dict_set path (PyStr.replace path source dest) files) paths [].

Definition download_tree (limit : nat) (sched : list nat) (source dest : string)
    (force : bool) (pattern : option string) (makedirs : bool) (ftp : option nat)
    (server : option string) (login : option Login) : M (option (list string)) :=
  paths <~ tree limit source pattern ftp server login 0;
  download_multiple sched (rewrite_paths source dest paths) force makedirs ftp server login.

(** [str(Path(p))] on POSIX: the components of [p] without the empty ones
    and the ["."] ones, after the root ["/"] when [p] starts with a slash
    (["//"] when it starts with exactly two); ["."] when nothing is
    left.  A component [".."] is kept. *)
Definition path_str (p : string) : string :=
  let parts := List.filter (λ c, negb (String.eqb c "" || String.eqb c "."))
                 (PyStr.split PyStr.slash p) in
  let root := if PyStr.startswith "//" p && negb (PyStr.startswith "///" p) then "//"
              else if PyStr.startswith "/" p then "/" else "" in
  match parts, root with
  | [], EmptyString => "."
  | _, _ => root ++ PyStr.join "/" parts
  end.

(** [k] is the [str] of a path that [Path(base).glob('**/*')] gives, for a
    [base] in normal form: an entry below [base], at any depth, and not
    [base] itself.  Below ["."] these are the relative paths, written
    without a leading ["./"]. *)
Definition glob_under (base k : string) : bool :=
  if String.eqb base "." then
    negb (PyStr.is_abs k) && negb (String.eqb k "" || String.eqb k ".")
  else if String.eqb base "/" then
    PyStr.is_abs k && negb (PyStr.startswith "//" k) && negb (String.eqb k "/")
  else if String.eqb base "//" then
    PyStr.startswith "//" k && negb (String.eqb k "//")
  else PyStr.startswith (base ++ "/") k.

(** [Path(src).glob('**/*')] as strings, over a local store whose keys are
    in normal form and in which the parent of every entry is a
    directory. *)
Definition glob_all (source : string) : M (list string) :=
  λ w, (Ok (filter (λ k, glob_under (path_str source) k = true)
              (map_to_list (local w)).*1), w).

Definition upload_tree_files (fs : FS) (source dest : string) (pattern : option string)
    (paths : list string) : list (string * string) :=
  fold_left (λ files path,
    if negb (is_file fs path) then files
    else if selected pattern path
         then dict_set path (PyStr.replace path source dest) files
         else files) paths [].

Definition upload_tree (sched : list nat) (source dest : string)
    (force : bool) (pattern : option string) (makedirs : bool) (ftp : option nat)
    (server : option string) (login : option Login) : M (option (list string)) :=
  paths <~ glob_all source;
  (λ w, upload_multiple sched
          (upload_tree_files (local w) source dest pattern paths)
          force makedirs ftp server login w).

End Walk.

(** * Notions used in the statements *)

(** ** Sessions *)

(** Session [h] exists in [w], is [s], and is open. *)
Definition live (w : World) (h : nat) (s : Session) : Prop :=
  sessions w !! h = Some s ∧ s_open s = true.

(** The cursor of [s] is an absolute path that names a directory of its
    host.  Every cursor is one: a session starts at the root, [CWD] moves
    it to directories only, and nothing removes a directory. *)
Definition cursor_ok (w : World) (s : Session) : Prop :=
  PyStr.is_abs (s_cwd s) = true ∧
  is_directory (fs_of w (s_host s)) (s_cwd s) = true.

(** The world after [if close: ftp.quit()] on the open session [s]. *)
Definition after_quit (close : bool) (h : nat) (s : Session) (w : World) : World :=
  if close
  then set_sessions (<[h := set_open false s]> (sessions w)) (emit (Sent h QUIT) w)
  else w.

(** The session a call without [ftp], [server] and [login] opens, once
    closed again. *)
Definition default_session (login : Login) : Session :=
  mkSession (l_host login) "/" false false (default true (l_tls login)).

(** ** Commands sent *)

(** The commands of one [is_dir] probe that answers [b]. *)
Definition probe (h : nat) (path cur : string) (b : bool) : list Event :=
  [Sent h PWD; Sent h (CWD path)] ++ (if b then [Sent h (CWD cur)] else []).

(** What [is_dir] without [ftp], [server] and [login] sends on the session
    [n] it opens. *)
Definition fresh_probe (n : nat) (login : Login) (dir : string) (b : bool) : list Event :=
  [Sent n (CONNECT (l_host login))] ++
  (if default true (l_tls login) then [Sent n PROT_P] else []) ++
  probe n dir "/" b ++ [Sent n QUIT].

(** The paths of the [MKD] commands among some events. *)
Definition mkd_paths (evs : list Event) : list string :=
  omap (λ e, match e with Sent _ (MKD p) => Some p | _ => None end) evs.

(** One iteration of the loop of [mkdirs]. *)
Definition mkdirs_body (ftp : nat) (dir : string) : M unit :=
  if String.eqb dir "" then ret tt
  else
    d <~ is_dir dir (Some ftp) None None false;
    if d : bool then ret tt
    else log (LogCreateFtpDir dir) ;> ftp_mkd ftp dir.

(** ** Frames

    For a preorder [R] on worlds, [keeps R m] says that every run of [m]
    ends in a world related to the one it started in. *)
Definition keeps (R : relation World) {A} (m : M A) : Prop :=
  ∀ w, R w (m w).2.

(** The retry records of a log, as (number, source). *)
Definition retry_records (l : list LogRecord) : list (nat * string) :=
  omap (λ r, match r with LogRetry n s => Some (n, s) | _ => None end) l.

(** The log has the same retry records. *)
Definition same_retries : relation World :=
  λ w w', retry_records (LOG w') = retry_records (LOG w).

(** The records ["Retry i+1 on data transfer src"] of iterations
    [i, i+1, ..., i+k-1]. *)
Definition retries_logged (source : string) (i k : nat) : list (nat * string) :=
  map (λ j, (S j, source)) (seq i k).

(** [attempts op source i es w w']: starting in [w] with iteration [i],
    the call [op] was made once for each element of [es], one after the
    other; each call raised, with the exception listed, and was followed
    by its retry record and its sleep; [w'] is the world after the
    last. *)
Inductive attempts (op : M unit) (source : string) :
    nat → list exn → World → World → Prop :=
| attempts_none i w : attempts op source i [] w w
| attempts_more i e es w w1 w' :
    op w = (Raise e, w1) →
    attempts op source (S i) es
      ((log (LogRetry (S i) source) ;> time_sleep i) w1).2 w' →
    attempts op source i (e :: es) w w'.

(** The transcript has only grown, and session [n] is as it was. *)
Definition beside (n : nat) : relation World :=
  λ w w', (∃ evs, trace w' = trace w ++ evs) ∧ sessions w' !! n = sessions w !! n.

(** ** Occurrences in a string *)

(** No occurrence of [old] starts inside [a] when [a] is followed by [old]. *)
Definition clear_before (old a : string) : Prop :=
  ∀ a1 a2, a = a1 +:+ a2 → a2 ≠ "" → PyStr.startswith old (a2 +:+ old) = false.

(** The same, as a test on every non-empty suffix of [a]. *)
Fixpoint clear_beforeb (old a : string) : bool :=
  match a with
  | EmptyString => true
  | String _ a' => negb (PyStr.startswith old (a +:+ old)) && clear_beforeb old a'
  end.

(** ** The walk of the specification

    For each child of the root, in the order of the listing: recurse into
    it when it is a directory, else yield it when it is selected.  [None]
    when [limit] levels do not reach the leaves. *)
Fixpoint collect {A B} (l : list A) (f : A → option (list B)) : option (list B) :=
  match l with
  | [] => Some []
  | x :: l' =>
      match f x, collect l' f with
      | Some ys, Some zs => Some (ys ++ zs)
      | _, _ => None
      end
  end.

Fixpoint walk (sel : string → bool) (fs : FS) (limit : nat) (root : string) : option (list string) :=
  match limit with
  | O => None
  | S limit' =>
      collect (listing fs root) (λ child,
        if is_directory fs child then walk sel fs limit' child
        else Some (if sel child then [child] else []))
  end.

(** The filter of the specification: a path is wanted when no pattern is
    given or [re.search] finds the pattern in it.  The empty pattern is
    found in every path. *)
Definition wanted (re_search : string → string → bool) (pattern : option string)
    (path : string) : bool :=
  match pattern with
  | None => true
  | Some EmptyString => true
  | Some rx => re_search rx path
  end.

(** [under fs root p]: [p] is a path that is not a directory, listed in
    [root] or in a directory under [root]. *)
Inductive under (fs : FS) : string → string → Prop :=
| under_here root p :
    p ∈ listing fs root → is_directory fs p = false → under fs root p
| under_deeper root child p :
    child ∈ listing fs root → is_directory fs child = true →
    under fs child p → under fs root p.

(** The length of the longest path in a store. *)
Definition max_len (fs : FS) : nat :=
  foldr (λ k m, Nat.max (String.length k) m) 0 (map_to_list fs).*1.

(** ** A matcher for the examples

    [re.search] for the patterns the examples need: literal characters,
    [\c] for the character [c], [.] for any character, and [$] at the end
    of the pattern for the end of the path. *)
Inductive atom : Type :=
| Lit (ch : ascii)
| AnyChar.

Fixpoint parse_pattern (p : string) : list atom * bool :=
  match p with
  | EmptyString => ([], false)
  | String "\" (String ch rest) =>
      let '(atoms, anchored) := parse_pattern rest in (Lit ch :: atoms, anchored)
  | String "$" EmptyString => ([], true)
  | String "." rest =>
      let '(atoms, anchored) := parse_pattern rest in (AnyChar :: atoms, anchored)
  | String ch rest =>
      let '(atoms, anchored) := parse_pattern rest in (Lit ch :: atoms, anchored)
  end.

Fixpoint match_here (atoms : list atom) (anchored : bool) (s : string) : bool :=
  match atoms, s with
  | [], EmptyString => true
  | [], String _ _ => negb anchored
  | _ :: _, EmptyString => false
  | Lit ch :: atoms', String x s' => Ascii.eqb ch x && match_here atoms' anchored s'
  | AnyChar :: atoms', String _ s' => match_here atoms' anchored s'
  end.

Fixpoint search_from (atoms : list atom) (anchored : bool) (s : string) : bool :=
  match_here atoms anchored s ||
  match s with
  | EmptyString => false
  | String _ s' => search_from atoms anchored s'
  end.

Definition re_search_simple (pattern path : string) : bool :=
  let '(atoms, anchored) := parse_pattern pattern in
  search_from atoms anchored path.

(** ** Worlds and schedules for the examples

    [site]: one host with a directory [/remote] holding a file [x]; the
    server registry names the host ['main']; locally a directory [/local]
    with a file [x], and a file [x.txt] in the working directory. *)
Definition site_fs : FS :=
  <["/remote/x" := File "old"]> (<["/remote" := Dir]> ∅).

Definition site_local : FS :=
  <["x.txt" := File "mine"]> (<["/local/x" := File "new"]> (<["/local" := Dir]> ∅)).

Definition site_cfg : Config :=
  mkConfig (<["main" := mkLogin "ftp.example" "user" "secret" None]> ∅) None None.

Definition site : World :=
  mkWorld (<["ftp.example" := site_fs]> ∅) [] site_local site_cfg [] [].

(** [site] after a caller has opened session 0 on the host. *)
Definition site_open : World := (get_ftp_from_config "main" site).2.

Definition session0 : Session := mkSession "ftp.example" "/" true false true.

(** [site_open] with a negative count of retries in the configuration. *)
Definition site_negative : World :=
  mkWorld (hosts site_open) (sessions site_open) (local site_open)
    (mkConfig (cfg_server site_cfg) (Some (-1)%Z) None) (trace site_open) (LOG site_open).

(** [site_open] with the cursor of session 0 moved to [/remote]. *)
Definition site_in_remote : World := (ftp_cwd 0 "/remote" site_open).2.

(** [site] with a pool of one worker. *)
Definition site_single : World :=
  mkWorld (hosts site) [] site_local
    (mkConfig (cfg_server site_cfg) None (Some 1)) [] [].

(** A remote tree with the files [a.txt], [a.csv] and [dir/b.txt], and a
    session open on it. *)
Definition scenario_fs : FS :=
  <["/dir/b.txt" := File "b"]> (<["/dir" := Dir]>
    (<["/a.csv" := File "c"]> (<["/a.txt" := File "a"]> ∅))).

Definition scenario : World :=
  mkWorld (<["ftp.example" := scenario_fs]> ∅) [session0] ∅ site_cfg [] [].

(** The five workers one after the other: each runs to its end before the
    next starts. *)
Definition one_by_one : list nat := [0; 0; 0; 1; 1; 2; 2; 3; 3; 4; 4].

(** All five workers pass [queue.empty()] before any of them calls
    [queue.get]; then worker 0 takes the one item. *)
Definition all_check_first : list nat := [0; 1; 2; 3; 4; 0; 1; 2; 3; 4; 0].

(** * Properties *)

Example split_abs : PyStr.split PyStr.slash "/a/b" = [""; "a"; "b"].
Proof. reflexivity. Qed.

Example rsplit_bare : PyStr.rsplit1_head PyStr.slash "x.txt" = "x.txt".
Proof. reflexivity. Qed.

Example rsplit_root : PyStr.rsplit1_head PyStr.slash "/x.txt" = "".
Proof. reflexivity. Qed.

Example replace_all : PyStr.replace "/a/x/a/b" "/a" "/d" = "/d/x/d/b".
Proof. reflexivity. Qed.

Example replace_overlap : PyStr.replace "aaa" "aa" "b" = "ba".
Proof. reflexivity. Qed.

Example replace_nothing : PyStr.replace "ab" "" "-" = "-a-b-".
Proof. reflexivity. Qed.

Example dirname_bare : PyStr.dirname "x.txt" = "".
Proof. reflexivity. Qed.

Example dirname_root : PyStr.dirname "/x.txt" = "/".
Proof. reflexivity. Qed.

Example dirname_deep : PyStr.dirname "/a//b" = "/a".
Proof. reflexivity. Qed.

#[local] Arguments Ascii.eqb : simpl never.
#[local] Arguments String.eqb : simpl never.

(** ** Paths *)

Lemma is_abs_inv p : PyStr.is_abs p = true → ∃ q, p = String "/" q.
Proof.
  destruct p as [|a p]; [intros [=]|].
  unfold PyStr.is_abs. simpl. destruct (Ascii.eqb_spec "/" a); [|intros [=]].
  subst. eauto.
Qed.

Lemma resolve_abs c p : PyStr.is_abs p = true → resolve c p = p.
Proof.
  intros H. destruct (is_abs_inv _ H) as [q ->].
  unfold resolve. rewrite H. destruct q; reflexivity.
Qed.

Lemma resolve_is_abs c p : PyStr.is_abs c = true → PyStr.is_abs (resolve c p) = true.
Proof.
  intros H. unfold resolve.
  destruct (_ || _); [done|].
  destruct (PyStr.is_abs p) eqn:E; [done|].
  destruct (String.eqb c "/"); [done|].
  destruct (is_abs_inv _ H) as [q ->]. done.
Qed.

(** ** Running the session commands *)

Ltac msimpl :=
  unfold bind, try_except, ret, raise, log, put_session, time_sleep;
  cbn beta iota delta [is_error_perm].

Lemma command_run {A} w h s c (k : Session → M A) :
  live w h s → command h c k w = k s (emit (Sent h c) w).
Proof. intros [Hs Ho]. unfold command. by rewrite Hs, Ho. Qed.

Lemma command_closed {A} w h s c (k : Session → M A) :
  sessions w !! h = Some s → s_open s = false →
  command h c k w = (Raise AttributeError, w).
Proof. intros Hs Ho. unfold command. by rewrite Hs, Ho. Qed.

Lemma fs_of_emit e w : fs_of (emit e w) = fs_of w.
Proof. done. Qed.

Lemma quit_run close w h s :
  live w h s → when close (ftp_quit h) w = (Ok tt, after_quit close h s w).
Proof.
  intros H. destruct close; [|done]. simpl. unfold ftp_quit.
  by rewrite (command_run _ _ s).
Qed.

Lemma is_dir_run w h s path sv lg close :
  live w h s → cursor_ok w s →
  is_dir path (Some h) sv lg close w =
    (let b := is_directory (fs_of w (s_host s)) (resolve (s_cwd s) path) in
     (Ok b, after_quit close h s (set_trace (trace w ++ probe h path (s_cwd s) b) w))).
Proof.
  intros Hl [Ha Hd]. pose proof Hl as [Hs Ho].
  unfold is_dir, ftp_object, ftp_pwd, ftp_cwd. msimpl.
  rewrite (command_run _ _ s) by done. msimpl.
  rewrite (command_run _ _ s) by done. msimpl.
  rewrite !fs_of_emit.
  destruct (is_directory (fs_of w (s_host s)) (resolve (s_cwd s) path)) eqn:E; msimpl.
  - set (w1 := set_sessions _ _).
    assert (live w1 h (set_cwd (resolve (s_cwd s) path) s)) as Hl1.
    { split; [|done]. subst w1. cbn. apply list_lookup_insert_eq.
      by eapply lookup_lt_Some. }
    rewrite (command_run _ _ _ _ _ Hl1).
    cbn [s_cwd set_cwd s_host].
    rewrite (resolve_abs _ _ Ha).
    change (fs_of (emit (Sent h (CWD (s_cwd s))) w1)) with (fs_of w).
    rewrite Hd. msimpl.
    set (w2 := set_sessions _ _).
    assert (w2 = set_trace (trace w ++ probe h path (s_cwd s) true) w) as ->.
    { subst w2 w1. destruct w as [hs ss lc cf tr lg']. cbn in *.
      unfold set_trace, set_sessions, emit. cbn. f_equal.
      - rewrite list_insert_insert_eq. apply list_insert_id. rewrite Hs. by destruct s.
      - by rewrite <- !app_assoc. }
    rewrite (quit_run _ _ _ s) by done. done.
  - rewrite (quit_run _ _ _ s) by done.
    simpl. repeat f_equal. unfold probe, emit, set_trace. cbn.
    destruct w; cbn. by rewrite <- !app_assoc.
Qed.

Lemma ls_run w h s path sv lg close :
  live w h s →
  ls path (Some h) sv lg close w =
    (Ok (listing (fs_of w (s_host s)) (resolve (s_cwd s) path)),
     after_quit close h s (emit (Sent h (NLST path)) w)).
Proof.
  intros Hl. unfold ls, ftp_object, ftp_nlst. msimpl.
  rewrite (command_run _ _ s) by done.
  rewrite (quit_run _ _ _ s) by done. done.
Qed.

Example site_open_session : sessions site_open = [session0].
Proof. reflexivity. Qed.

(** ** [is_dir] and the cursor *)

(** C4.  [is_dir] leaves the cursor of the session where it was, whatever
    it answers and whether or not it closes the session; on an open session
    it answers whether the path names a directory. *)
Theorem is_dir_keeps_cursor path h sv lg close w s r w' :
  sessions w !! h = Some s →
  cursor_ok w s →
  is_dir path (Some h) sv lg close w = (r, w') →
  (∃ s', sessions w' !! h = Some s' ∧ s_cwd s' = s_cwd s) ∧
  (s_open s = true →
   r = Ok (is_directory (fs_of w (s_host s)) (resolve (s_cwd s) path))).
Proof.
  intros Hs Hc Hrun. destruct (s_open s) eqn:Ho.
  - rewrite (is_dir_run w h s) in Hrun by done.
    cbn zeta in Hrun. injection Hrun as <- <-. split; [|done].
    destruct close; cbn.
    + exists (set_open false s). split; [|done].
      apply list_lookup_insert_eq. by eapply lookup_lt_Some.
    + by exists s.
  - unfold is_dir, ftp_object, ftp_pwd in Hrun. unfold bind at 1 in Hrun.
    rewrite (command_closed _ _ s) in Hrun by done.
    injection Hrun as <- <-. split; [by exists s | done].
Qed.

Lemma is_dir_keeps_cursor_witness :
  let run := is_dir "/remote/x" (Some 0) None None false site_open in
  (∃ s', sessions run.2 !! 0 = Some s' ∧ s_cwd s' = "/") ∧
  (true = true → run.1 = Ok false).
Proof.
  intros run.
  refine (is_dir_keeps_cursor "/remote/x" 0 None None false site_open session0
            run.1 run.2 _ _ _).
  - reflexivity.
  - split; reflexivity.
  - reflexivity.
Defined.

(** ** The scoped session guard *)

(** C2, as the code has it.  However the body of [with Ftp(...)] ends,
    normally or with an exception, the session the guard holds is closed
    afterwards and the guard has sent [QUIT] on it once, or not at all
    when the body had closed it already; while the session is open at the
    end of the body, the outcome of the body is the outcome of the block.
    The session the guard holds is the caller's when the caller supplied
    one: that one is closed as well. *)
Theorem Ftp_guard_quits_held_session {A} ftp sv lg (body : nat → M A) w h w0 r w1 s1 :
  Ftp_init ftp sv lg w = (Ok h, w0) →
  body h w0 = (r, w1) →
  sessions w1 !! h = Some s1 →
  ∃ r' w2,
    with_Ftp ftp sv lg body w = (r', w2) ∧
    sessions w2 !! h = Some (set_open false s1) ∧
    trace w2 = trace w1 ++ (if s_open s1 then [Sent h QUIT] else []) ∧
    (s_open s1 = true → r' = r).
Proof.
  intros Hinit Hbody Hs. unfold with_Ftp, Ftp_enter, Ftp_exit. msimpl.
  rewrite Hinit, Hbody. unfold ftp_quit.
  destruct (s_open s1) eqn:Ho.
  - rewrite (command_run _ _ s1) by done. cbn [put_session].
    eexists r, _. split; [by destruct r|]. split; [|done].
    cbn. apply list_lookup_insert_eq. by eapply lookup_lt_Some.
  - rewrite (command_closed _ _ s1) by done.
    eexists _, _. split; [done|]. split; [|split; [by rewrite app_nil_r|done]].
    rewrite Hs. f_equal. destruct s1; cbn in *. by subst.
Qed.

Lemma Ftp_guard_quits_held_session_witness :
  ∃ r' w2,
    with_Ftp (Some 0) None None (λ _, raise (A := unit) error_perm) site_open = (r', w2) ∧
    sessions w2 !! 0 = Some (set_open false session0) ∧
    trace w2 = trace site_open ++ (if s_open session0 then [Sent 0 QUIT] else []) ∧
    (s_open session0 = true → r' = Raise error_perm).
Proof.
  refine (Ftp_guard_quits_held_session (Some 0) None None _ site_open 0 site_open
            (Raise error_perm) site_open session0 _ _ _).
  - reflexivity.
  - reflexivity.
  - reflexivity.
Defined.

(** The claim as the spec states it fails: a session opened by the caller
    and passed to the guard is closed when the block ends. *)
Lemma Ftp_guard_closes_supplied_session :
  let w' := (with_Ftp (Some 0) None None (λ _, ret tt) site_open).2 in
  (∃ s, sessions site_open !! 0 = Some s ∧ s_open s = true) ∧
  ¬ (∃ s', sessions w' !! 0 = Some s' ∧ s_open s' = true).
Proof.
  split.
  - exists session0. split; reflexivity.
  - intros (s' & Hs & Ho). vm_compute in Hs. injection Hs as <-. discriminate Ho.
Qed.

(** ** Rewriting paths with [str.replace] *)

Lemma sapp_cons c (a b : string) : String c a +:+ b = String c (a +:+ b).
Proof. reflexivity. Qed.

Lemma sapp_nil_l (b : string) : "" +:+ b = b.
Proof. reflexivity. Qed.

Lemma sapp_nil_r (a : string) : a +:+ "" = a.
Proof. induction a as [|x a IH]; [done|]. by rewrite sapp_cons, IH. Qed.

Lemma sapp_assoc (a b c : string) : (a +:+ b) +:+ c = a +:+ (b +:+ c).
Proof. induction a as [|x a IH]; [done|]. by rewrite !sapp_cons, IH. Qed.

Lemma sapp_length (a b : string) :
  String.length (a +:+ b) = (String.length a + String.length b)%nat.
Proof. induction a as [|x a IH]; [done|]. rewrite sapp_cons. simpl. by rewrite IH. Qed.

Lemma startswith_app p x : PyStr.startswith p (p +:+ x) = true.
Proof.
  induction p as [|a p IH]; [done|]. rewrite sapp_cons. simpl.
  by rewrite Ascii.eqb_refl.
Qed.

Lemma startswith_extend p x y :
  (String.length p ≤ String.length x)%nat →
  PyStr.startswith p (x +:+ y) = PyStr.startswith p x.
Proof.
  revert x. induction p as [|a p IH]; intros [|b x] Hlen; simpl in *; try done; try lia.
  destruct (Ascii.eqb a b); [|done]. apply IH. lia.
Qed.

Lemma replace_go_skip old new x y :
  PyStr.replace_go old new (String.length x) (x +:+ y) = PyStr.replace_go old new 0 y.
Proof.
  induction x as [|c x IH]; [by destruct y|]. by rewrite sapp_cons.
Qed.

Lemma replace_go_occurrence old new b :
  old ≠ "" →
  PyStr.replace_go old new 0 (old +:+ b) = new +:+ PyStr.replace_go old new 0 b.
Proof.
  intros Hne. destruct old as [|c old]; [done|].
  rewrite sapp_cons. cbn [PyStr.replace_go]. rewrite <- sapp_cons.
  rewrite startswith_app. cbn [String.length].
  replace (S (String.length old) - 1)%nat with (String.length old) by lia.
  by rewrite replace_go_skip.
Qed.

Lemma clear_beforeb_sound old a : clear_beforeb old a = true → clear_before old a.
Proof.
  induction a as [|c a IH]; intros H a1 a2 E Hne.
  - destruct a1; [|done]. rewrite sapp_nil_l in E. by subst.
  - cbn [clear_beforeb] in H. apply andb_prop in H as [H1 H2].
    destruct a1 as [|c1 a1].
    + rewrite sapp_nil_l in E. subst a2. by apply negb_true_iff.
    + rewrite sapp_cons in E. injection E as -> ->. by apply (IH H2 a1 a2).
Qed.

Lemma replace_go_later old new a b :
  old ≠ "" → clear_before old a →
  PyStr.replace_go old new 0 (a +:+ old +:+ b) =
  a +:+ new +:+ PyStr.replace_go old new 0 b.
Proof.
  intros Hne. induction a as [|c a IH]; intros Hclear.
  - rewrite !sapp_nil_l. by apply replace_go_occurrence.
  - rewrite sapp_cons. cbn [PyStr.replace_go]. rewrite <- sapp_cons.
    rewrite <- sapp_assoc, startswith_extend.
    2:{ rewrite sapp_length. simpl. lia. }
    rewrite (Hclear "" (String c a)) by done.
    rewrite IH; [done|].
    intros a1 a2 -> Ha2. by apply (Hclear (String c a1) a2).
Qed.

Lemma replace_nonempty s old new :
  old ≠ "" → PyStr.replace s old new = PyStr.replace_go old new 0 s.
Proof. by destruct old. Qed.

Lemma replace_later old new a b :
  old ≠ "" → clear_before old a →
  PyStr.replace (old +:+ a +:+ old +:+ b) old new =
  new +:+ a +:+ new +:+ PyStr.replace b old new.
Proof.
  intros Hne Hclear. rewrite !replace_nonempty by done.
  rewrite replace_go_occurrence by done. by rewrite replace_go_later.
Qed.

Lemma dict_get_set k k' v d :
  dict_get k (dict_set k' v d) = if String.eqb k k' then Some v else dict_get k d.
Proof.
  induction d as [|[k0 v0] d IH]; simpl.
  - done.
  - destruct (String.eqb_spec k' k0) as [->|Hne]; simpl.
    + by destruct (String.eqb k k0).
    + rewrite IH. destruct (String.eqb_spec k k0) as [->|]; [|done].
      destruct (String.eqb_spec k0 k'); [congruence|done].
Qed.

Lemma rewrite_paths_keeps source dest paths p acc :
  dict_get p acc = Some (PyStr.replace p source dest) →
  dict_get p (fold_left (λ files path, dict_set path (PyStr.replace path source dest) files)
                paths acc) = Some (PyStr.replace p source dest).
Proof.
  revert acc. induction paths as [|q paths IH]; intros acc Hacc; simpl; [done|].
  apply IH. rewrite dict_get_set. by destruct (String.eqb_spec p q) as [->|].
Qed.

Lemma rewrite_paths_get source dest paths p :
  p ∈ paths →
  dict_get p (rewrite_paths source dest paths) = Some (PyStr.replace p source dest).
Proof.
  unfold rewrite_paths. generalize (@nil (string * string)).
  induction paths as [|q paths IH]; intros acc Hin; [by apply elem_of_nil in Hin|].
  apply elem_of_cons in Hin as [->|Hin]; simpl.
  - apply rewrite_paths_keeps. by rewrite dict_get_set, String.eqb_refl.
  - by apply IH.
Qed.

Section WalkFacts.

Variable re_search : string → string → bool.

Lemma upload_tree_files_keeps fs source dest pattern paths p acc :
  dict_get p acc = Some (PyStr.replace p source dest) →
  dict_get p (fold_left (λ files path,
      if negb (is_file fs path) then files
      else if selected re_search pattern path
           then dict_set path (PyStr.replace path source dest) files
           else files) paths acc) = Some (PyStr.replace p source dest).
Proof.
  revert acc. induction paths as [|q paths IH]; intros acc Hacc; simpl; [done|].
  apply IH. destruct (negb _); [done|]. destruct (selected _ _ _); [|done].
  rewrite dict_get_set. by destruct (String.eqb_spec p q) as [->|].
Qed.

Lemma upload_tree_files_get fs source dest pattern paths p :
  p ∈ paths → is_file fs p = true → selected re_search pattern p = true →
  dict_get p (upload_tree_files re_search fs source dest pattern paths) =
    Some (PyStr.replace p source dest).
Proof.
  unfold upload_tree_files. generalize (@nil (string * string)).
  induction paths as [|q paths IH]; intros acc Hin Hf Hsel; [by apply elem_of_nil in Hin|].
  apply elem_of_cons in Hin as [->|Hin]; simpl.
  - apply upload_tree_files_keeps. rewrite Hf, Hsel. simpl.
    by rewrite dict_get_set, String.eqb_refl.
  - by apply IH.
Qed.

End WalkFacts.

(** C10.  [download_tree] and [upload_tree] pair every walked path with
    [path.replace(src, dst)], and [str.replace] rewrites every occurrence
    of the source root: when the path is the root, then a stretch [a] in
    which no further occurrence starts, then the root again, both
    occurrences are rewritten, and the rest of the path is rewritten in
    the same way. *)
Theorem tree_transfers_replace_every_occurrence re_search source dest :
  (∀ limit sched force pattern mk ftp sv lg,
     download_tree re_search limit sched source dest force pattern mk ftp sv lg =
       (paths <~ tree re_search limit source pattern ftp sv lg 0;
        download_multiple sched (rewrite_paths source dest paths) force mk ftp sv lg)) ∧
  (∀ sched force pattern mk ftp sv lg,
     upload_tree re_search sched source dest force pattern mk ftp sv lg =
       (paths <~ glob_all source;
        λ w, upload_multiple sched
               (upload_tree_files re_search (local w) source dest pattern paths)
               force mk ftp sv lg w)) ∧
  (∀ paths p, p ∈ paths →
     dict_get p (rewrite_paths source dest paths) = Some (PyStr.replace p source dest)) ∧
  (∀ fs pattern paths p,
     p ∈ paths → is_file fs p = true → selected re_search pattern p = true →
     dict_get p (upload_tree_files re_search fs source dest pattern paths) =
       Some (PyStr.replace p source dest)) ∧
  (∀ a b, source ≠ "" → clear_before source a →
     PyStr.replace (source +:+ a +:+ source +:+ b) source dest =
       dest +:+ a +:+ dest +:+ PyStr.replace b source dest).
Proof.
  split; [done|]. split; [done|]. split; [|split].
  - intros. by apply rewrite_paths_get.
  - intros. by apply upload_tree_files_get.
  - intros. by apply replace_later.
Qed.

Lemma tree_transfers_replace_every_occurrence_witness :
  dict_get "/a/x/a/b" (rewrite_paths "/a" "/d" ["/a/x/a/b"]) = Some "/d/x/d/b" ∧
  PyStr.replace ("/a" +:+ "/x" +:+ "/a" +:+ "/b") "/a" "/d" = "/d/x/d/b".
Proof.
  pose proof (tree_transfers_replace_every_occurrence (λ _ _, true) "/a" "/d")
    as (_ & _ & Hget & _ & Hrep).
  split.
  - apply (Hget ["/a/x/a/b"] "/a/x/a/b"). apply list_elem_of_here.
  - apply (Hrep "/x" "/b"); [done|].
    by apply clear_beforeb_sound.
Defined.

(** ** [mkdirs] *)

Lemma mkdirs_unfold path h sv lg close :
  mkdirs path (Some h) sv lg close = for_each (prefixes path) (mkdirs_body h).
Proof. reflexivity. Qed.

Lemma is_directory_mono (fs fs' : FS) p :
  fs ⊆ fs' → is_directory fs p = true → is_directory fs' p = true.
Proof.
  unfold is_directory. intros Hsub. destruct (String.eqb p "/"); [done|].
  destruct (fs !! p) as [[]|] eqn:E; try done.
  by rewrite (lookup_weaken _ _ _ _ E Hsub).
Qed.

Lemma is_directory_root fs : is_directory fs "/" = true.
Proof. done. Qed.

Lemma fs_of_set_fs host fs w : fs_of (set_fs host fs w) host = fs.
Proof. unfold fs_of, set_fs. cbn. by rewrite lookup_insert_eq. Qed.

Lemma mkd_paths_app a b : mkd_paths (a ++ b) = mkd_paths a ++ mkd_paths b.
Proof. apply omap_app. Qed.

Lemma mkd_paths_probe h d c b : mkd_paths (probe h d c b) = [].
Proof. by destruct b. Qed.

Section Mkdirs.

Variables (h : nat) (s : Session).

(** What one iteration does, by cases on the prefix. *)
Lemma mkdirs_step d w :
  live w h s → cursor_ok w s →
  mkdirs_body h d w =
    (let D := resolve (s_cwd s) d in
     let fs := fs_of w (s_host s) in
     if String.eqb d "" then (Ok tt, w)
     else if is_directory fs D
     then (Ok tt, set_trace (trace w ++ probe h d (s_cwd s) true) w)
     else
       let w_p := emit (Sent h (MKD d))
                    (set_LOG (LOG w ++ [LogCreateFtpDir d])
                       (set_trace (trace w ++ probe h d (s_cwd s) false) w)) in
       match fs !! D with
       | Some _ => (Raise error_perm, w_p)
       | None =>
           if is_directory fs (parent D)
           then (Ok tt, set_fs (s_host s) (<[D := Dir]> fs) w_p)
           else (Raise error_perm, w_p)
       end).
Proof.
  intros Hl Hc. unfold mkdirs_body. cbn zeta.
  destruct (String.eqb d ""); [done|]. msimpl.
  rewrite (is_dir_run w h s) by done. cbn zeta.
  destruct (is_directory (fs_of w (s_host s)) (resolve (s_cwd s) d)) eqn:E; [done|].
  cbn [after_quit]. unfold ftp_mkd.
  set (w1 := set_LOG _ _).
  rewrite (command_run w1 h s) by done.
  change (fs_of (emit (Sent h (MKD d)) w1)) with (fs_of w).
  destruct (String.eqb_spec (resolve (s_cwd s) d) "/") as [E'|_].
  { rewrite E' in E. done. }
  done.
Qed.

Lemma mkdirs_loop ds : ∀ w r w1,
  live w h s → cursor_ok w s →
  for_each ds (mkdirs_body h) w = (r, w1) →
  sessions w1 = sessions w ∧
  fs_of w (s_host s) ⊆ fs_of w1 (s_host s) ∧
  (∃ evs, trace w1 = trace w ++ evs ∧
          mkd_paths evs `sublist_of` ds ∧
          ∀ d, d ∈ mkd_paths evs → is_directory (fs_of w (s_host s)) (resolve (s_cwd s) d) = false) ∧
  (r = Ok tt → ∀ d, d ∈ ds → d ≠ "" →
     is_directory (fs_of w1 (s_host s)) (resolve (s_cwd s) d) = true).
Proof.
  induction ds as [|d ds IH]; intros w r w1 Hl Hc Hrun.
  - injection Hrun as <- <-. split; [done|]. split; [done|]. split.
    + exists []. rewrite app_nil_r. split; [done|]. split; [constructor|].
      intros d Hd. by apply elem_of_nil in Hd.
    + intros _ d Hd. by apply elem_of_nil in Hd.
  - cbn [for_each] in Hrun. unfold bind in Hrun.
    rewrite mkdirs_step in Hrun by done. cbn zeta in Hrun.
    destruct (String.eqb_spec d "") as [->|Hd].
    { destruct (IH w r w1 Hl Hc Hrun) as (Hs & Hsub & (evs & Ht & Hsl & Hnd) & Hok).
      split; [done|]. split; [done|]. split.
      - exists evs. split; [done|]. split; [by constructor|done].
      - intros -> d' Hd' Hne. apply elem_of_cons in Hd' as [->|Hd']; [done|].
        by apply Hok. }
    destruct (is_directory (fs_of w (s_host s)) (resolve (s_cwd s) d)) eqn:E.
    { set (wa := set_trace _ w) in Hrun.
      assert (live wa h s) as Hla by done.
      assert (cursor_ok wa s) as Hca by done.
      destruct (IH wa r w1 Hla Hca Hrun) as (Hs & Hsub & (evs & Ht & Hsl & Hnd) & Hok).
      split; [done|]. split; [done|]. split.
      - exists (probe h d (s_cwd s) true ++ evs). split.
        { rewrite Ht. subst wa. cbn. by rewrite <- ?app_assoc. }
        rewrite mkd_paths_app, mkd_paths_probe. split; [by constructor|done].
      - intros -> d' Hd' Hne. apply elem_of_cons in Hd' as [->|Hd']; [|by apply Hok].
        by apply (is_directory_mono _ _ _ Hsub). }
    set (wp := emit _ _) in Hrun.
    destruct (fs_of w (s_host s) !! resolve (s_cwd s) d) eqn:Elk.
    { injection Hrun as <- <-. split; [done|]. split; [done|]. split; [|done].
      exists (probe h d (s_cwd s) false ++ [Sent h (MKD d)]). split.
      { subst wp. cbn. by rewrite <- ?app_assoc. }
      split.
      - cbn. apply sublist_skip, sublist_nil_l.
      - intros d' Hd'. cbn in Hd'. apply list_elem_of_singleton in Hd'. by subst. }
    destruct (is_directory (fs_of w (s_host s)) (parent (resolve (s_cwd s) d))) eqn:Ep.
    2:{ injection Hrun as <- <-. split; [done|]. split; [done|]. split; [|done].
        exists (probe h d (s_cwd s) false ++ [Sent h (MKD d)]). split.
        { subst wp. cbn. by rewrite <- ?app_assoc. }
        split.
        - cbn. apply sublist_skip, sublist_nil_l.
        - intros d' Hd'. cbn in Hd'. apply list_elem_of_singleton in Hd'. by subst. }
    set (wc := set_fs _ _ wp) in Hrun.
    assert (fs_of w (s_host s) ⊆ fs_of wc (s_host s)) as Hgrow.
    { subst wc. rewrite fs_of_set_fs. by apply insert_subseteq. }
    assert (live wc h s) as Hlc by done.
    assert (cursor_ok wc s) as Hcc.
    { destruct Hc as [Ha Hdir]. split; [done|]. by apply (is_directory_mono _ _ _ Hgrow). }
    destruct (IH wc r w1 Hlc Hcc Hrun) as (Hs & Hsub & (evs & Ht & Hsl & Hnd) & Hok).
    split; [done|]. split; [by etrans|]. split.
    + exists (probe h d (s_cwd s) false ++ [Sent h (MKD d)] ++ evs). split.
      { rewrite Ht. subst wc wp. cbn. by rewrite <- ?app_assoc. }
      rewrite !mkd_paths_app, mkd_paths_probe. cbn. split; [by constructor|].
      intros d' Hd'. apply elem_of_cons in Hd' as [->|Hd']; [done|].
      destruct (is_directory (fs_of w (s_host s)) (resolve (s_cwd s) d')) eqn:E'; [|done].
      rewrite <- (Hnd d' Hd'). symmetry. by apply (is_directory_mono _ _ _ Hgrow).
    + intros -> d' Hd' Hne. apply elem_of_cons in Hd' as [->|Hd']; [|by apply Hok].
      apply (is_directory_mono _ _ _ Hsub). subst wc. rewrite fs_of_set_fs.
      unfold is_directory. rewrite lookup_insert_eq. by destruct (String.eqb _ _).
Qed.

Lemma mkdirs_again ds : ∀ w r w1,
  live w h s → cursor_ok w s →
  for_each ds (mkdirs_body h) w = (r, w1) →
  ∀ w', live w' h s → fs_of w' (s_host s) = fs_of w1 (s_host s) →
  ∃ w2, for_each ds (mkdirs_body h) w' = (r, w2) ∧
        hosts w2 = hosts w' ∧
        ∃ evs, trace w2 = trace w' ++ evs ∧ (r = Ok tt → mkd_paths evs = []).
Proof.
  induction ds as [|d ds IH]; intros w r w1 Hl Hc Hrun w' Hl' Hfs.
  - injection Hrun as <- <-. exists w'. split; [done|]. split; [done|].
    exists []. by rewrite app_nil_r.
  - assert (cursor_ok w' s) as Hc'.
    { destruct Hc as [Ha Hdir]. split; [done|]. rewrite Hfs.
      destruct (mkdirs_loop _ _ _ _ Hl (conj Ha Hdir) Hrun) as (_ & Hsub & _).
      by apply (is_directory_mono _ _ _ Hsub). }
    cbn [for_each] in Hrun |- *. unfold bind in Hrun |- *.
    rewrite mkdirs_step in Hrun |- * by done. cbn zeta in Hrun |- *.
    destruct (String.eqb d "") eqn:Ed; [by apply (IH w r w1)|].
    destruct (is_directory (fs_of w (s_host s)) (resolve (s_cwd s) d)) eqn:E.
    { set (wa := set_trace _ w) in Hrun.
      destruct (mkdirs_loop ds wa r w1) as (_ & Hsub & _); [done..|].
      rewrite Hfs. rewrite (is_directory_mono _ _ _ Hsub E).
      set (wa' := set_trace _ w').
      destruct (IH wa r w1) with (w' := wa') as (w2 & Hrun2 & Hh & evs & Ht & Hm);
        [done..|].
      exists w2. split; [done|]. split; [done|].
      exists (probe h d (s_cwd s) true ++ evs). split.
      - rewrite Ht. subst wa'. cbn. by rewrite <- ?app_assoc.
      - intros Hr. by rewrite mkd_paths_app, mkd_paths_probe, Hm. }
    set (wp := emit _ _) in Hrun.
    destruct (fs_of w (s_host s) !! resolve (s_cwd s) d) eqn:Elk.
    { injection Hrun as <- <-. change (fs_of wp (s_host s)) with (fs_of w (s_host s)) in Hfs.
      rewrite Hfs, E, Elk. eexists. split; [done|]. split; [done|].
      eexists. split; [|done]. cbn. by rewrite <- ?app_assoc. }
    destruct (is_directory (fs_of w (s_host s)) (parent (resolve (s_cwd s) d))) eqn:Ep.
    2:{ injection Hrun as <- <-. change (fs_of wp (s_host s)) with (fs_of w (s_host s)) in Hfs.
        rewrite Hfs, E, Elk, Ep. eexists. split; [done|]. split; [done|].
        eexists. split; [|done]. cbn. by rewrite <- ?app_assoc. }
    set (wc := set_fs _ _ wp) in Hrun.
    assert (fs_of w (s_host s) ⊆ fs_of wc (s_host s)) as Hgrow.
    { subst wc. rewrite fs_of_set_fs. by apply insert_subseteq. }
    assert (cursor_ok wc s) as Hcc.
    { destruct Hc as [Ha Hdir]. split; [done|]. by apply (is_directory_mono _ _ _ Hgrow). }
    destruct (mkdirs_loop ds wc r w1) as (_ & Hsub & _); [done..|].
    assert (is_directory (fs_of w' (s_host s)) (resolve (s_cwd s) d) = true) as ->.
    { rewrite Hfs. apply (is_directory_mono _ _ _ Hsub). subst wc.
      rewrite fs_of_set_fs. unfold is_directory. rewrite lookup_insert_eq.
      by destruct (String.eqb (resolve (s_cwd s) d) "/"). }
    set (wa' := set_trace _ w').
    destruct (IH wc r w1) with (w' := wa') as (w2 & Hrun2 & Hh & evs & Ht & Hm);
      [done..|].
    exists w2. split; [done|]. split; [done|].
    exists (probe h d (s_cwd s) true ++ evs). split.
    + rewrite Ht. subst wa'. cbn. by rewrite <- ?app_assoc.
    + intros Hr. by rewrite mkd_paths_app, mkd_paths_probe, Hm.
Qed.

End Mkdirs.

(** *** The prefixes of a path, shortest first *)

Lemma join_snoc sep l x :
  l ≠ [] → PyStr.join sep (l ++ [x]) = PyStr.join sep l +:+ sep +:+ x.
Proof.
  induction l as [|a l IH]; [done|]. intros _.
  destruct l as [|b l]; [done|].
  change (PyStr.join sep ((a :: b :: l) ++ [x]))
    with (a +:+ sep +:+ PyStr.join sep ((b :: l) ++ [x])).
  rewrite IH by done.
  change (PyStr.join sep (a :: b :: l)) with (a +:+ sep +:+ PyStr.join sep (b :: l)).
  by rewrite !sapp_assoc.
Qed.

Lemma join_app sep l1 l2 :
  l1 ≠ [] → l2 ≠ [] →
  ∃ t, PyStr.join sep (l1 ++ l2) = PyStr.join sep l1 +:+ sep +:+ t.
Proof.
  revert l1. induction l2 as [|x l2 IH]; [done|]. intros l1 Hl1 _.
  destruct l2 as [|y l2].
  - exists x. by apply join_snoc.
  - destruct (IH (l1 ++ [x])) as [t Ht]; [by destruct l1|done|].
    rewrite <- app_assoc in Ht. cbn [app] in Ht. rewrite Ht, join_snoc by done.
    exists (x +:+ sep +:+ t). by rewrite !sapp_assoc.
Qed.

Lemma prefixes_lookup path i :
  i < length (PyStr.split PyStr.slash path) →
  prefixes path !! i = Some (PyStr.join "/" (take (S i) (PyStr.split PyStr.slash path))).
Proof.
  intros Hi. unfold prefixes. rewrite list_lookup_fmap.
  by rewrite lookup_seq_lt.
Qed.

Lemma prefixes_length path :
  length (prefixes path) = length (PyStr.split PyStr.slash path).
Proof. unfold prefixes. by rewrite length_map, length_seq. Qed.

Lemma prefixes_ordered path i j a b :
  i < j → prefixes path !! i = Some a → prefixes path !! j = Some b →
  ∃ t, b = a +:+ "/" +:+ t.
Proof.
  intros Hij Ha Hb.
  assert (j < length (PyStr.split PyStr.slash path)) as Hj.
  { rewrite <- prefixes_length. by eapply lookup_lt_Some. }
  rewrite prefixes_lookup in Ha, Hb by lia. injection Ha as <-. injection Hb as <-.
  set (dirs := PyStr.split PyStr.slash path) in *.
  rewrite <- (take_drop (S i) (take (S j) dirs)).
  rewrite take_take. replace (S i `min` S j) with (S i) by lia.
  apply join_app.
  - destruct dirs; [simpl in Hj; lia|done].
  - intros Hnil. apply (f_equal length) in Hnil.
    rewrite length_drop, length_take in Hnil. cbn [length] in Hnil. lia.
Qed.

(** C6.  On an open session, [mkdirs] twice is [mkdirs] once: the second
    call ends as the first did and leaves every file store as the first
    left it.  A call sends [MKD] only for prefixes of the path that were
    not directories, in the order of [prefixes], which lists every
    ancestor before its descendants; after a call that returns, every
    non-empty prefix is a directory and a further call sends no [MKD]. *)
Theorem mkdirs_idempotent path h s sv lg close w r1 w1 r2 w2 :
  live w h s → cursor_ok w s →
  mkdirs path (Some h) sv lg close w = (r1, w1) →
  mkdirs path (Some h) sv lg close w1 = (r2, w2) →
  (r2 = r1 ∧ hosts w2 = hosts w1) ∧
  (∃ evs, trace w1 = trace w ++ evs ∧
          mkd_paths evs `sublist_of` prefixes path ∧
          ∀ d, d ∈ mkd_paths evs →
               is_directory (fs_of w (s_host s)) (resolve (s_cwd s) d) = false) ∧
  (∀ i j a b, i < j →
     prefixes path !! i = Some a → prefixes path !! j = Some b →
     ∃ t, b = a +:+ "/" +:+ t) ∧
  (r1 = Ok tt →
     (∀ d, d ∈ prefixes path → d ≠ "" →
           is_directory (fs_of w1 (s_host s)) (resolve (s_cwd s) d) = true) ∧
     ∃ evs, trace w2 = trace w1 ++ evs ∧ mkd_paths evs = []).
Proof.
  intros Hl Hc Hrun1 Hrun2. rewrite mkdirs_unfold in Hrun1, Hrun2.
  destruct (mkdirs_loop h s _ _ _ _ Hl Hc Hrun1) as (Hs & Hsub & Htr & Hok).
  assert (live w1 h s) as Hl1.
  { destruct Hl. split; [by rewrite Hs|done]. }
  destruct (mkdirs_again h s _ _ _ _ Hl Hc Hrun1 w1 Hl1 eq_refl)
    as (w2' & Hrun2' & Hh & evs2 & Ht2 & Hm2).
  rewrite Hrun2 in Hrun2'. injection Hrun2' as -> <-.
  split; [done|]. split; [done|]. split; [by apply prefixes_ordered|].
  intros Hr. split; [by apply Hok|]. exists evs2. split; [done|by apply Hm2].
Qed.

Lemma mkdirs_idempotent_witness :
  let run1 := mkdirs "/remote/a/b" (Some 0) None None false site_open in
  let run2 := mkdirs "/remote/a/b" (Some 0) None None false run1.2 in
  (run2.1 = run1.1 ∧ hosts run2.2 = hosts run1.2) ∧
  mkd_paths (drop (length (trace site_open)) (trace run1.2)) = ["/remote/a"; "/remote/a/b"].
Proof.
  intros run1 run2. split; [|vm_compute; reflexivity].
  refine (proj1 (mkdirs_idempotent "/remote/a/b" 0 session0 None None false site_open
                   run1.1 run1.2 run2.1 run2.2 _ _ _ _)).
  - split; vm_compute; reflexivity.
  - split; vm_compute; reflexivity.
  - vm_compute; reflexivity.
  - vm_compute; reflexivity.
Defined.

(** ** Frames: what a computation leaves related

    For a preorder [R] on worlds, [keeps R m] says that every run of [m]
    ends in a world related to the one it started in.  The combinators of
    the monad keep what their parts keep. *)

Section Frame.

Context (R : relation World) `{!PreOrder R}.

Lemma keeps_ret {A} (a : A) : keeps R (ret a).
Proof. intros w. reflexivity. Qed.

Lemma keeps_raise {A} e : keeps R (raise (A := A) e).
Proof. intros w. reflexivity. Qed.

Lemma keeps_bind {A B} (m : M A) (k : A → M B) :
  keeps R m → (∀ a, keeps R (k a)) → keeps R (bind m k).
Proof.
  intros Hm Hk w. unfold bind. specialize (Hm w).
  destruct (m w) as [[a|e] w1]; [|done].
  etrans; [exact Hm|apply Hk].
Qed.

Lemma keeps_try_except {A} (m : M A) catches handler :
  keeps R m → (∀ e, keeps R (handler e)) → keeps R (try_except m catches handler).
Proof.
  intros Hm Hh w. unfold try_except. specialize (Hm w).
  destruct (m w) as [[a|e] w1]; [done|].
  destruct (catches e); [|done].
  etrans; [exact Hm|apply Hh].
Qed.

Lemma keeps_when b m : keeps R m → keeps R (when b m).
Proof. intros Hm. destruct b; [done|apply keeps_ret]. Qed.

Lemma keeps_if {A} (b : bool) (m1 m2 : M A) :
  keeps R m1 → keeps R m2 → keeps R (if b then m1 else m2).
Proof. by destruct b. Qed.

Lemma keeps_for_each {A} (l : list A) body :
  (∀ x, keeps R (body x)) → keeps R (for_each l body).
Proof.
  intros Hb. induction l as [|x l IH]; [apply keeps_ret|].
  apply keeps_bind; [apply Hb|done].
Qed.

Lemma keeps_ftp_object {A} (func : nat → M A) ftp sv lg :
  (∀ h, keeps R (get_ftp_from_config h)) →
  (∀ l, keeps R (get_ftp_login l)) →
  (∀ h, keeps R (func h)) →
  keeps R (ftp_object func ftp sv lg).
Proof.
  intros Hc Hl Hf. unfold ftp_object.
  destruct ftp; [done|]. destruct (truthy sv); [by apply keeps_bind|].
  destruct lg; by apply keeps_bind.
Qed.

End Frame.

(** *** The retry records of the log *)

#[local] Instance same_retries_preorder : PreOrder same_retries.
Proof.
  split; [done|]. intros a b c Hab Hbc. unfold same_retries in *. congruence.
Qed.

Lemma same_retries_command {A} h c (k : Session → M A) :
  (∀ s, keeps same_retries (k s)) → keeps same_retries (command h c k).
Proof.
  intros Hk w. unfold command. destruct (sessions w !! h) as [s|]; [|done].
  destruct (s_open s); [|done]. apply (Hk s (emit (Sent h c) w)).
Qed.

Ltac same_log :=
  intros; intros ?w; unfold same_retries;
  repeat (first [progress cbn | case_match]); done.

Lemma sr_pwd h : keeps same_retries (ftp_pwd h).
Proof. apply same_retries_command. same_log. Qed.

Lemma sr_cwd h p : keeps same_retries (ftp_cwd h p).
Proof. apply same_retries_command. same_log. Qed.

Lemma sr_nlst h p : keeps same_retries (ftp_nlst h p).
Proof. apply same_retries_command. same_log. Qed.

Lemma sr_mkd h p : keeps same_retries (ftp_mkd h p).
Proof. apply same_retries_command. same_log. Qed.

Lemma sr_type_i h : keeps same_retries (ftp_type_i h).
Proof. apply same_retries_command. same_log. Qed.

Lemma sr_retr h p : keeps same_retries (ftp_retrbinary h p).
Proof. apply same_retries_command. same_log. Qed.

Lemma sr_stor h p c : keeps same_retries (ftp_storbinary h p c).
Proof. apply same_retries_command. same_log. Qed.

Lemma sr_quit h : keeps same_retries (ftp_quit h).
Proof. apply same_retries_command. same_log. Qed.

Lemma sr_isfile p : keeps same_retries (os_path_isfile p).
Proof. same_log. Qed.

Lemma sr_exists p : keeps same_retries (os_path_exists p).
Proof. same_log. Qed.

Lemma sr_mkdir p : keeps same_retries (os_mkdir p).
Proof. intros w. unfold os_mkdir, same_retries. repeat case_match; done. Qed.

Lemma sr_open_wb p : keeps same_retries (open_wb p).
Proof. intros w. unfold open_wb, same_retries. repeat case_match; done. Qed.

Lemma sr_open_rb p : keeps same_retries (open_rb p).
Proof. intros w. unfold open_rb, same_retries. repeat case_match; done. Qed.

Lemma sr_write p c : keeps same_retries (file_write p c).
Proof. same_log. Qed.

Lemma retry_records_snoc l r :
  retry_records (l ++ [r]) =
  retry_records l ++ match r with LogRetry n s => [(n, s)] | _ => [] end.
Proof. unfold retry_records. rewrite omap_app. by destruct r. Qed.

Lemma sr_get_ftp host user passwd tls : keeps same_retries (get_ftp host user passwd tls).
Proof.
  intros w. unfold get_ftp, same_retries. destruct (hosts w !! host); [|done].
  destruct tls; cbn; by rewrite retry_records_snoc, app_nil_r.
Qed.

Lemma sr_get_ftp_login l : keeps same_retries (get_ftp_login l).
Proof. apply sr_get_ftp. Qed.

Lemma sr_get_ftp_from_config sv : keeps same_retries (get_ftp_from_config sv).
Proof.
  intros w. unfold get_ftp_from_config. destruct (cfg_server (CFG w) !! sv); [|done].
  apply sr_get_ftp_login.
Qed.

Lemma sr_log r :
  match r with LogRetry _ _ => False | _ => True end →
  keeps same_retries (log r).
Proof.
  intros Hr w. unfold log, same_retries. cbn.
  rewrite retry_records_snoc. destruct r; try done; by rewrite app_nil_r.
Qed.

Create HintDb keeps.

#[local] Hint Resolve sr_pwd sr_cwd sr_nlst sr_mkd sr_type_i sr_retr sr_stor sr_quit
  sr_isfile sr_exists sr_mkdir sr_open_wb sr_open_rb sr_write
  sr_get_ftp_login sr_get_ftp_from_config : keeps.

(** Decompose a computation along the combinators; the leaves are closed
    from the hints. *)
Ltac frame :=
  cbv beta zeta;
  lazymatch goal with
  | |- PreOrder _ => apply _
  | |- keeps _ (ret _) => apply keeps_ret; frame
  | |- keeps _ (raise _) => apply keeps_raise; frame
  | |- keeps _ (bind _ _) => apply keeps_bind; frame
  | |- keeps _ (try_except _ _ _) => apply keeps_try_except; frame
  | |- keeps _ (when _ _) => apply keeps_when; frame
  | |- keeps _ (if _ then _ else _) => apply keeps_if; frame
  | |- keeps _ (for_each _ _) => apply keeps_for_each; frame
  | |- keeps _ (ftp_object _ _ _ _) => apply keeps_ftp_object; frame
  | |- keeps same_retries (log _) => apply sr_log; exact I
  | |- keeps _ _ => solve [auto with keeps]
  | |- ∀ _, _ => intros ?; frame
  end.

Lemma sr_ls path ftp sv lg close : keeps same_retries (ls path ftp sv lg close).
Proof. unfold ls. frame. Qed.

Lemma sr_is_dir path ftp sv lg close : keeps same_retries (is_dir path ftp sv lg close).
Proof. unfold is_dir. frame. Qed.

#[local] Hint Resolve sr_ls sr_is_dir : keeps.

Lemma sr_mkdirs path ftp sv lg close : keeps same_retries (mkdirs path ftp sv lg close).
Proof. unfold mkdirs. frame. Qed.

Lemma sr_makedirs name : keeps same_retries (os_makedirs name).
Proof. unfold os_makedirs. frame. Qed.

#[local] Hint Resolve sr_mkdirs sr_makedirs : keeps.

Lemma sr_download a b f m ftp sv lg close :
  keeps same_retries (download a b f m ftp sv lg close).
Proof. unfold download. frame. Qed.

Lemma sr_upload a b f m ftp sv lg close :
  keeps same_retries (upload a b f m ftp sv lg close).
Proof. unfold upload. frame. Qed.

(** ** The retry loop *)

Lemma retry_loop_outcome (op : M unit) source :
  keeps same_retries op →
  ∀ n i result w r result' w',
    retry_loop op source i n result w = (r, result', w') →
    (r = Ok tt ∧ result' = result ∧
     ∃ es w1, attempts op source i es w w1 ∧ length es < n ∧ op w1 = (Ok tt, w') ∧
              retry_records (LOG w') =
                retry_records (LOG w) ++ retries_logged source i (length es)) ∨
    (r = Raise UnboundLocalError ∧ result' = result ++ [source] ∧
     ∃ es, attempts op source i es w w' ∧ length es = n ∧
           retry_records (LOG w') = retry_records (LOG w) ++ retries_logged source i n).
Proof.
  intros Hop. induction n as [|n IH]; intros i result w r result' w' Hrun.
  - injection Hrun as <- <- <-. right. split; [done|]. split; [done|].
    exists []. split; [constructor|]. split; [done|]. by rewrite app_nil_r.
  - cbn [retry_loop] in Hrun. pose proof (Hop w) as Hsame.
    destruct (op w) as [[[]|e] w1] eqn:Eop; cbn in Hsame.
    + injection Hrun as <- <- <-. left. split; [done|]. split; [done|].
      exists [], w. split; [constructor|]. split; [cbn; lia|]. split; [done|].
      by rewrite Hsame, app_nil_r.
    + destruct ((log (LogRetry (S i) source);> time_sleep i) w1) as [r2 w2] eqn:E2.
      assert (retry_records (LOG w2) = retry_records (LOG w) ++ [(S i, source)]) as Hlog2.
      { replace w2 with ((log (LogRetry (S i) source);> time_sleep i) w1).2
          by by rewrite E2.
        cbn. by rewrite retry_records_snoc, Hsame. }
      assert (∀ es w', attempts op source (S i) es w2 w' →
                       attempts op source i (e :: es) w w') as Hcons.
      { intros es w3 Ha. eapply attempts_more; [exact Eop|]. by rewrite E2. }
      apply IH in Hrun.
      destruct Hrun as [(-> & -> & es & w3 & Ha & Hlen & Hok & Hlog)|
                        (-> & -> & es & Ha & Hlen & Hlog)];
        rewrite Hlog2, <- app_assoc in Hlog.
      * left. split; [done|]. split; [done|]. exists (e :: es), w3.
        split; [by apply Hcons|]. split; [cbn; lia|]. by split.
      * right. split; [done|]. split; [done|]. exists (e :: es).
        split; [by apply Hcons|]. split; [cbn; lia|done].
Qed.

Lemma worker_step_attempts (op : nat → Item → M unit) ftp sv lg h result data q w p' q' w' :
  (∀ h d, keeps same_retries (op h d)) →
  worker_step op ftp sv lg (mkProc (AtGet h) result) (data :: q) w = Some (p', q', w') →
  (p_result p' = result ∧ p_pc p' = AtCheck h) ∨
  (p_result p' = result ++ [src data] ∧
   (∃ e, p_pc p' = Crashed e) ∧
   ∃ es w1,
     attempts (op h data) (src data) 0 es w w1 ∧
     length es = Z.to_nat (retries w) ∧
     retry_records (LOG w') =
       retry_records (LOG w) ++ retries_logged (src data) 0 (length es) ∧
     w' = (Ftp_exit h w1).2).
Proof.
  intros Hop Hstep. unfold worker_step in Hstep. cbn [p_pc p_result] in Hstep.
  destruct (retry_loop _ _ _ _ _ _) as [[r result'] w1] eqn:Hloop.
  apply retry_loop_outcome in Hloop; [|apply Hop].
  destruct Hloop as [(-> & -> & _)|(-> & -> & es & Ha & Hlen & Hlog)].
  - injection Hstep as <- <- <-. by left.
  - right. unfold leave_with in Hstep.
    pose proof (sr_quit h w1) as Hq. unfold same_retries in Hq.
    unfold Ftp_exit in *.
    destruct (ftp_quit h w1) as [[[]|e] w2] eqn:Eq; cbn in Hq;
      injection Hstep as <- <- <-; (split; [done|]); (split; [by eexists|]);
      exists es, w1; (split; [done|]); (split; [done|]);
      (split; [by rewrite Hq, Hlen|by rewrite Eq]).
Qed.




(** ** [upload] and the parent of its destination *)

Lemma bind_run {A B} (m : M A) (k : A → M B) w :
  bind m k w = match m w with
               | (Ok a, w') => k a w'
               | (Raise e, w') => (Raise e, w')
               end.
Proof. reflexivity. Qed.

Lemma bind_assoc {A B C} (m : M A) (k : A → M B) (k' : B → M C) w :
  bind (bind m k) k' w = bind m (λ a, bind (k a) k') w.
Proof. unfold bind. by destruct (m w) as [[a|e] w1]. Qed.

(** The decorator obtains the session exactly as [Ftp] does. *)
Lemma ftp_object_init {A} (func : nat → M A) ftp sv lg w :
  ftp_object func ftp sv lg w =
    match Ftp_init ftp sv lg w with
    | (Ok h, w0) => func h w0
    | (Raise e, w0) => (Raise e, w0)
    end.
Proof.
  unfold ftp_object, Ftp_init. destruct ftp; [done|].
  destruct (truthy sv); [done|]. by destruct lg.
Qed.

Lemma world_ext w1 w2 :
  hosts w1 = hosts w2 → sessions w1 = sessions w2 → local w1 = local w2 →
  CFG w1 = CFG w2 → trace w1 = trace w2 → LOG w1 = LOG w2 → w1 = w2.
Proof. destruct w1, w2. cbn. by intros -> -> -> -> -> ->. Qed.

Lemma is_dir_fresh_run dir w login fs :
  cfg_server (CFG w) !! "main" = Some login →
  hosts w !! l_host login = Some fs →
  is_dir dir None None None true w =
    (let n := length (sessions w) in
     let b := is_directory fs (resolve "/" dir) in
     (Ok b,
      mkWorld (hosts w) (sessions w ++ [default_session login]) (local w) (CFG w)
        (trace w ++ fresh_probe n login dir b) (LOG w ++ [LogWelcome n]))).
Proof.
  intros Hcfg Hhost.
  change (is_dir dir None None None true w)
    with (match get_ftp_from_config "main" w with
          | (Ok n, w1) => is_dir dir (Some n) None None true w1
          | (Raise e, w1) => (Raise e, w1)
          end).
  unfold get_ftp_from_config. rewrite Hcfg. unfold get_ftp_login, get_ftp. rewrite Hhost.
  unfold default_session, fresh_probe, probe.
  destruct (default true (l_tls login)).
  all: match goal with
       | |- context [set_sessions (_ ++ [?x]) _] => set (s := x)
       end.
  all: set (w1 := set_LOG _ _).
  all: assert (live w1 (length (sessions w)) s) as Hl
         by (split; [by apply list_lookup_middle|done]).
  all: assert (fs_of w1 (l_host login) = fs) as Hfs
         by (unfold fs_of; cbn; by rewrite Hhost).
  all: assert (cursor_ok w1 s) as Hc by done.
  all: rewrite (is_dir_run w1 _ s) by done; cbn zeta; cbn [s_host s s_cwd]; rewrite Hfs.
  all: f_equal; unfold after_quit, probe.
  all: apply world_ext; subst w1; cbn; try done.
  all: try (by rewrite insert_app_r_alt, Nat.sub_diag by done).
  all: destruct (is_directory fs (resolve "/" dir)); cbn; by rewrite <- ?app_assoc.
Qed.

#[local] Instance beside_preorder n : PreOrder (beside n).
Proof.
  split.
  - intros w. split; [|done]. exists []. by rewrite app_nil_r.
  - intros a b c [[e1 H1] H1'] [[e2 H2] H2']. split; [|congruence].
    exists (e1 ++ e2). by rewrite H2, H1, app_assoc.
Qed.

Lemma beside_emit n e w : beside n w (emit e w).
Proof. split; [by eexists|done]. Qed.

Lemma beside_command {A} n h c (k : Session → M A) :
  (∀ s, keeps (beside n) (k s)) → keeps (beside n) (command h c k).
Proof.
  intros Hk w. unfold command. destruct (sessions w !! h) as [s|]; [|reflexivity].
  destruct (s_open s); [|reflexivity].
  etrans; [apply (beside_emit n (Sent h c))|apply Hk].
Qed.

Lemma beside_put_session n h s : h ≠ n → keeps (beside n) (put_session h s).
Proof.
  intros Hne w. split; [exists []; by rewrite app_nil_r|].
  cbn. by apply list_lookup_insert_ne.
Qed.

Ltac beside_leaf :=
  intros ?w; cbn; repeat case_match; cbn;
  (split; [exists []; by rewrite app_nil_r|done]).

Lemma bs_pwd n h : keeps (beside n) (ftp_pwd h).
Proof. apply beside_command. intros s w. reflexivity. Qed.

Lemma bs_cwd n h p : h ≠ n → keeps (beside n) (ftp_cwd h p).
Proof.
  intros Hne. apply beside_command. intros s w. cbv zeta.
  destruct (is_directory _ _); [by apply beside_put_session|reflexivity].
Qed.

Lemma bs_nlst n h p : keeps (beside n) (ftp_nlst h p).
Proof. apply beside_command. intros s w. reflexivity. Qed.

Lemma bs_mkd n h p : keeps (beside n) (ftp_mkd h p).
Proof. apply beside_command. intros s. beside_leaf. Qed.

Lemma bs_type_i n h : h ≠ n → keeps (beside n) (ftp_type_i h).
Proof. intros Hne. apply beside_command. intros s. by apply beside_put_session. Qed.

Lemma bs_stor n h p c : keeps (beside n) (ftp_storbinary h p c).
Proof. apply beside_command. intros s. beside_leaf. Qed.

Lemma bs_quit n h : h ≠ n → keeps (beside n) (ftp_quit h).
Proof. intros Hne. apply beside_command. intros s. by apply beside_put_session. Qed.

Lemma bs_log n r : keeps (beside n) (log r).
Proof. beside_leaf. Qed.

Lemma bs_open_rb n p : keeps (beside n) (open_rb p).
Proof.
  intros w. unfold open_rb. cbn. repeat case_match; apply beside_emit.
Qed.

#[local] Hint Resolve bs_pwd bs_cwd bs_nlst bs_mkd bs_type_i bs_stor bs_quit
  bs_log bs_open_rb : keeps.

(** The frame tactic, for a computation on a session given explicitly. *)
Ltac frame_on :=
  cbv beta zeta;
  lazymatch goal with
  | |- PreOrder _ => apply _
  | |- keeps _ (ret _) => apply keeps_ret; frame_on
  | |- keeps _ (raise _) => apply keeps_raise; frame_on
  | |- keeps _ (bind _ _) => apply keeps_bind; frame_on
  | |- keeps _ (try_except _ _ _) => apply keeps_try_except; frame_on
  | |- keeps _ (when _ _) => apply keeps_when; frame_on
  | |- keeps _ (if _ then _ else _) => apply keeps_if; frame_on
  | |- keeps _ (for_each _ _) => apply keeps_for_each; frame_on
  | |- keeps _ (ftp_object _ (Some _) _ _) => unfold ftp_object at 1; frame_on
  | |- keeps _ _ => solve [auto with keeps]
  | |- ∀ _, _ => intros ?; frame_on
  end.

Lemma bs_ls n h path sv lg close :
  h ≠ n → keeps (beside n) (ls path (Some h) sv lg close).
Proof. intros Hne. unfold ls. frame_on. Qed.

Lemma bs_is_dir n h path sv lg close :
  h ≠ n → keeps (beside n) (is_dir path (Some h) sv lg close).
Proof. intros Hne. unfold is_dir. frame_on. Qed.

#[local] Hint Resolve bs_ls bs_is_dir : keeps.

Lemma bs_mkdirs n h path sv lg close :
  h ≠ n → keeps (beside n) (mkdirs path (Some h) sv lg close).
Proof. intros Hne. unfold mkdirs. frame_on. Qed.

#[local] Hint Resolve bs_mkdirs : keeps.

(** C9.  Whenever [upload] with [makedirs=True] gets past its overwrite
    guard, it asks whether the parent of the destination is a directory on
    a session of its own making: whatever session [h] the call works on,
    and whether it came as [ftp], from [server] or from [login], the probe
    opens a new session [n] to the host of server ['main'], sends its
    [PWD] and [CWD] there, and closes it; [n] is still closed when the
    call ends. *)
Theorem upload_probes_parent_on_default_server
    source dest force ftp sv lg close w h w0 s login fs :
  Ftp_init ftp sv lg w = (Ok h, w0) →
  live w0 h s →
  force = true ∨ listing (fs_of w0 (s_host s)) (resolve (s_cwd s) dest) = [] →
  cfg_server (CFG w0) !! "main" = Some login →
  hosts w0 !! l_host login = Some fs →
  ∃ r w' post,
    upload source dest force true ftp sv lg close w = (r, w') ∧
    let n := length (sessions w0) in
    let dir := PyStr.rsplit1_head PyStr.slash dest in
    n ≠ h ∧
    trace w' =
      trace w0 ++ (if force then [] else [Sent h (NLST dest)]) ++
      fresh_probe n login dir (is_directory fs (resolve "/" dir)) ++ post ∧
    sessions w' !! n = Some (default_session login).
Proof.
  intros Hinit Hl Hguard Hcfg Hhost.
  assert (length (sessions w0) ≠ h) as Hne.
  { destruct Hl as [Hs _]. apply lookup_lt_Some in Hs. lia. }
  unfold upload. rewrite ftp_object_init, Hinit. rewrite bind_run.
  set (pre := if force then [] else [Sent h (NLST dest)]).
  set (wa := set_trace (trace w0 ++ pre) w0).
  assert ((if force then ret false
           else l <~ ls dest (Some h) None None false; ret (nonempty l)) w0
          = (Ok false, wa)) as ->.
  { subst wa pre. destruct force.
    - cbn. f_equal. apply world_ext; cbn; try done. by rewrite app_nil_r.
    - destruct Hguard as [[=]|Hguard]. rewrite bind_run, (ls_run _ _ s) by done.
      by rewrite Hguard. }
  cbn [when]. rewrite bind_assoc, bind_run.
  rewrite (is_dir_fresh_run _ wa login fs) by done. cbn zeta.
  set (n := length (sessions wa)).
  set (dir := PyStr.rsplit1_head PyStr.slash dest).
  set (b := is_directory fs (resolve "/" dir)).
  set (wp := mkWorld _ _ _ _ _ _).
  cbv beta iota.
  match goal with |- context [bind ?m ?k wp] => set (rest := bind m k) end.
  assert (keeps (beside n) rest) as Hrest.
  { subst rest. assert (h ≠ n) by done. frame_on. }
  destruct (Hrest wp) as [[post Ht] Hs].
  destruct (rest wp) as [r w'] eqn:Erest. cbn in Ht, Hs.
  exists r, w', post. split; [done|]. split; [done|]. split.
  - rewrite Ht. subst wp wa. cbn [trace set_trace]. by rewrite <- !app_assoc.
  - rewrite Hs. subst wp. cbn. by apply list_lookup_middle.
Qed.

Lemma upload_probes_parent_on_default_server_witness :
  let login := mkLogin "ftp.example" "user" "secret" None in
  ∃ r w' post,
    upload "/local/x" "/remote/y" false true (Some 0) None None false site_open = (r, w') ∧
    1 ≠ 0 ∧
    trace w' =
      trace site_open ++ [Sent 0 (NLST "/remote/y")] ++
      fresh_probe 1 login "/remote" true ++ post ∧
    sessions w' !! 1 = Some (default_session login).
Proof.
  intros login.
  refine (upload_probes_parent_on_default_server "/local/x" "/remote/y" false
            (Some 0) None None false site_open 0 site_open session0 login site_fs
            _ _ _ _ _).
  - reflexivity.
  - split; reflexivity.
  - right. vm_compute. reflexivity.
  - vm_compute. reflexivity.
  - vm_compute. reflexivity.
Defined.

(** ** The tree walk *)

Lemma rsplit1_spec sep k a b :
  PyStr.rsplit1 sep k = Some (a, b) → k = a +:+ String sep b.
Proof.
  revert a b. induction k as [|ch k IH]; intros a b H; [done|].
  cbn [PyStr.rsplit1] in H. destruct (PyStr.rsplit1 sep k) as [[a' b']|].
  - injection H as <- <-. rewrite sapp_cons. f_equal. by apply IH.
  - destruct (Ascii.eqb_spec ch sep) as [->|]; [|done]. by injection H as <- <-.
Qed.

Lemma child_longer k d :
  parent k = d → k ≠ d → (String.length d < String.length k)%nat.
Proof.
  unfold parent. destruct (PyStr.rsplit1 PyStr.slash k) as [[a b]|] eqn:E; [|done].
  apply rsplit1_spec in E. subst k. destruct a as [|a0 a]; intros <- Hne.
  - rewrite sapp_nil_l in *. destruct b; [done|]. cbn. lia.
  - rewrite sapp_length. cbn. lia.
Qed.

Lemma child_abs k d :
  parent k = d → k ≠ d → PyStr.is_abs d = true → PyStr.is_abs k = true.
Proof.
  unfold parent. destruct (PyStr.rsplit1 PyStr.slash k) as [[a b]|] eqn:E; [|done].
  apply rsplit1_spec in E. subst k. destruct a as [|a0 a]; intros <- Hne Habs; [done|].
  by rewrite sapp_cons.
Qed.

Lemma elem_of_children fs d k :
  k ∈ children fs d ↔ (parent k = d ∧ k ≠ d) ∧ is_Some (fs !! k).
Proof.
  unfold children. rewrite list_elem_of_filter, list_elem_of_fmap.
  split.
  - intros [Hp ([k' v] & -> & Hin)]. split; [done|].
    apply elem_of_map_to_list in Hin. by eexists.
  - intros [Hp [v Hv]]. split; [done|]. exists (k, v). split; [done|].
    by apply elem_of_map_to_list.
Qed.

Lemma listing_abs fs d k :
  PyStr.is_abs d = true → k ∈ listing fs d → PyStr.is_abs k = true.
Proof.
  intros Habs. unfold listing. destruct (is_directory fs d).
  - intros [[Hp Hne] _]%elem_of_children. by eapply child_abs.
  - destruct (is_file fs d); [|by intros ?%elem_of_nil].
    by intros ->%list_elem_of_singleton.
Qed.

Lemma max_len_bound fs k : is_Some (fs !! k) → (String.length k ≤ max_len fs)%nat.
Proof.
  intros [v Hv]. unfold max_len.
  assert (k ∈ (map_to_list fs).*1) as Hin.
  { apply list_elem_of_fmap. exists (k, v). split; [done|]. by apply elem_of_map_to_list. }
  induction ((map_to_list fs).*1) as [|x l IH]; [by apply elem_of_nil in Hin|].
  apply elem_of_cons in Hin as [->|Hin]; cbn; [lia|]. specialize (IH Hin). lia.
Qed.

Lemma collect_elem_of {A B} (l : list A) (f : A → option (list B)) ys y :
  collect l f = Some ys →
  y ∈ ys ↔ ∃ x zs, x ∈ l ∧ f x = Some zs ∧ y ∈ zs.
Proof.
  revert ys. induction l as [|x l IH]; intros ys H; cbn in H.
  - injection H as <-. split; [by intros ?%elem_of_nil|].
    by intros (? & ? & ?%elem_of_nil & _).
  - destruct (f x) as [xs|] eqn:Ex; [|done].
    destruct (collect l f) as [zs|]; [|done]. injection H as <-.
    rewrite elem_of_app, (IH zs eq_refl). split.
    + intros [Hy|(x' & zs' & Hx' & Hf & Hy)].
      * exists x, xs. split; [apply list_elem_of_here|done].
      * exists x', zs'. split; [by apply list_elem_of_further|done].
    + intros (x' & zs' & Hx' & Hf & Hy). apply elem_of_cons in Hx' as [->|Hx'].
      * left. congruence.
      * right. by exists x', zs'.
Qed.

Lemma collect_total {A B} (l : list A) (f : A → option (list B)) :
  (∀ x, x ∈ l → is_Some (f x)) → is_Some (collect l f).
Proof.
  induction l as [|x l IH]; intros H; cbn; [done|].
  destruct (H x) as [xs ->]; [apply list_elem_of_here|].
  destruct IH as [zs ->]; [|done]. intros y Hy. apply H. by apply list_elem_of_further.
Qed.

Lemma collect_defined {A B} (l : list A) (f : A → option (list B)) ys x :
  collect l f = Some ys → x ∈ l → is_Some (f x).
Proof.
  revert ys. induction l as [|x' l IH]; intros ys H Hx; [by apply elem_of_nil in Hx|].
  cbn in H. destruct (f x') as [xs|] eqn:Ex; [|done].
  destruct (collect l f) as [zs|]; [|done].
  apply elem_of_cons in Hx as [->|Hx]; [by rewrite Ex|by eapply IH].
Qed.

Section WalkSpec.

Variables (sel : string → bool) (fs : FS).

(** The walk ends: below a directory every path is longer than the
    directory, and no path of the store is longer than [max_len]. *)
Lemma walk_total limit root :
  (1 ≤ limit)%nat → (max_len fs < limit + String.length root)%nat →
  is_Some (walk sel fs limit root).
Proof.
  revert root. induction limit as [|limit IH]; intros root H1 Hlen; [lia|].
  cbn [walk]. apply collect_total. intros child Hin.
  destruct (is_directory fs child) eqn:Ed; [|done].
  unfold listing in Hin. destruct (is_directory fs root) eqn:Er.
  - apply elem_of_children in Hin as [[Hp Hne] Hk].
    pose proof (child_longer _ _ Hp Hne). pose proof (max_len_bound _ _ Hk).
    apply IH; lia.
  - destruct (is_file fs root); [|by apply elem_of_nil in Hin].
    apply list_elem_of_singleton in Hin. congruence.
Qed.

Lemma walk_sound limit : ∀ root ys p,
  walk sel fs limit root = Some ys → p ∈ ys → under fs root p ∧ sel p = true.
Proof.
  induction limit as [|limit IH]; intros root ys p Hw Hp; [done|].
  cbn [walk] in Hw. apply (collect_elem_of _ _ _ p Hw) in Hp as (child & zs & Hin & Hf & Hp).
  destruct (is_directory fs child) eqn:Ed.
  - destruct (IH _ _ _ Hf Hp) as [Hu Hs]. split; [|done]. by eapply under_deeper.
  - injection Hf as <-. destruct (sel child) eqn:Es; [|by apply elem_of_nil in Hp].
    apply list_elem_of_singleton in Hp as ->. split; [|done]. by apply under_here.
Qed.

Lemma walk_complete root p :
  under fs root p → sel p = true →
  ∀ limit ys, walk sel fs limit root = Some ys → p ∈ ys.
Proof.
  intros Hu Hs. induction Hu as [root p Hin Hd|root child p Hin Hd Hu IH];
    intros [|limit] ys Hw; try done; cbn [walk] in Hw.
  - apply (collect_elem_of _ _ _ p Hw). exists p, [p]. split; [done|].
    rewrite Hd, Hs. split; [done|apply list_elem_of_here].
  - destruct (collect_defined _ _ _ child Hw Hin) as [zs Hz]. rewrite Hd in Hz.
    apply (collect_elem_of _ _ _ p Hw). exists child, zs. split; [done|].
    rewrite Hd. split; [done|]. by apply (IH Hs limit).
Qed.

Lemma under_not_directory root p : under fs root p → is_directory fs p = false.
Proof. by induction 1. Qed.

End WalkSpec.

Lemma set_trace_twice w e1 e2 :
  set_trace (trace (set_trace (trace w ++ e1) w) ++ e2) (set_trace (trace w ++ e1) w) =
  set_trace (trace w ++ e1 ++ e2) w.
Proof. unfold set_trace. cbn. by rewrite app_assoc. Qed.

Section TreeRun.

Variable re_search : string → string → bool.
Variables (pattern : option string) (h : nat) (s : Session).

(** The loop of [tree] over a listing, given that the recursive calls one
    level down do what [walk] says. *)
Lemma tree_loop limit depth fs :
  (∀ source w ys,
     live w h s → cursor_ok w s → fs_of w (s_host s) = fs →
     walk (selected re_search pattern) fs limit (resolve (s_cwd s) source) = Some ys →
     ∃ evs, tree_func re_search limit source pattern h (S depth) w =
              (Ok ys, set_trace (trace w ++ evs) w)) →
  ∀ paths w ys,
    live w h s → cursor_ok w s → fs_of w (s_host s) = fs →
    (∀ p, p ∈ paths → PyStr.is_abs p = true) →
    collect paths (λ child,
      if is_directory fs child then walk (selected re_search pattern) fs limit child
      else Some (if selected re_search pattern child then [child] else [])) = Some ys →
    ∃ evs,
      for_yield paths (λ path,
        d <~ is_dir path (Some h) None None false;
        if d : bool then tree_func re_search limit path pattern h (S depth)
        else if selected re_search pattern path then ret [path] else ret []) w =
      (Ok ys, set_trace (trace w ++ evs) w).
Proof.
  intros Hrec. induction paths as [|p paths IH]; intros w ys Hl Hc Hfs Habs Hcol.
  - injection Hcol as <-. exists []. cbn. unfold ret. f_equal.
    apply world_ext; cbn; try done. by rewrite app_nil_r.
  - cbn [collect] in Hcol.
    assert (PyStr.is_abs p = true) as Hp by (apply Habs, list_elem_of_here).
    cbn [for_yield]. rewrite bind_run, bind_run.
    rewrite (is_dir_run w h s) by done. cbn zeta. cbn [after_quit].
    rewrite Hfs, (resolve_abs _ _ Hp).
    set (w1 := set_trace _ w).
    assert (live w1 h s) as Hl1 by done.
    assert (cursor_ok w1 s) as Hc1 by done.
    destruct (is_directory fs p) eqn:Ed.
    + destruct (walk (selected re_search pattern) fs limit p) as [xs|] eqn:Ew; [|done].
      destruct (collect paths _) as [zs|] eqn:Ez; [|done]. injection Hcol as <-.
      destruct (Hrec p w1 xs) as [e1 ->]; [done..|by rewrite resolve_abs|].
      rewrite bind_run.
      destruct (IH (set_trace (trace w1 ++ e1) w1) zs) as [e2 ->]; [done..| |done|].
      { intros q Hq. apply Habs. by apply list_elem_of_further. }
      eexists. unfold ret. f_equal. subst w1. by rewrite !set_trace_twice.
    + destruct (collect paths _) as [zs|] eqn:Ez; [|done]. injection Hcol as <-.
      assert ((if selected re_search pattern p then ret [p] else ret []) w1
              = (Ok (if selected re_search pattern p then [p] else []), w1)) as ->
        by by destruct (selected re_search pattern p).
      rewrite bind_run.
      destruct (IH w1 zs) as [e2 ->]; [done..| |done|].
      { intros q Hq. apply Habs. by apply list_elem_of_further. }
      eexists. unfold ret. f_equal. subst w1. by rewrite set_trace_twice.
Qed.

(** [tree] is the walk of the specification. *)
Lemma tree_func_walk limit : ∀ source depth w ys,
  live w h s → cursor_ok w s →
  walk (selected re_search pattern) (fs_of w (s_host s)) limit (resolve (s_cwd s) source) = Some ys →
  ∃ evs, tree_func re_search limit source pattern h depth w =
           (Ok ys, after_quit (Nat.eqb depth 0) h s (set_trace (trace w ++ evs) w)).
Proof.
  induction limit as [|limit IH]; intros source depth w ys Hl Hc Hw; [done|].
  cbn [walk] in Hw. cbn [tree_func]. rewrite bind_run.
  rewrite (ls_run w h s) by done. cbn [after_quit].
  set (w1 := emit _ w).
  rewrite bind_run.
  destruct (tree_loop limit depth (fs_of w (s_host s))) with
    (paths := listing (fs_of w (s_host s)) (resolve (s_cwd s) source)) (w := w1) (ys := ys)
    as [evs ->]; try done.
  - intros src' w' ys' Hl' Hc' Hfs' Hw'.
    destruct (IH src' (S depth) w' ys') as [evs Hrun]; [done..|by rewrite Hfs'|].
    by exists evs.
  - intros p Hp. eapply listing_abs; [|exact Hp]. apply resolve_is_abs. apply Hc.
  - rewrite bind_run, (quit_run _ _ _ s) by done.
    exists (Sent h (NLST source) :: evs). unfold ret. f_equal. f_equal.
    subst w1. unfold emit. by rewrite set_trace_twice.
Qed.

End TreeRun.

(** *** No path is yielded twice *)

Lemma parent_not_longer k : (String.length (parent k) ≤ String.length k)%nat.
Proof.
  unfold parent. destruct (PyStr.rsplit1 PyStr.slash k) as [[a b]|] eqn:E; [|done].
  apply rsplit1_spec in E. subst k. destruct a as [|a0 a].
  - rewrite sapp_nil_l. cbn. lia.
  - rewrite sapp_length. cbn. lia.
Qed.

Lemma iter_parent_not_longer n k :
  (String.length (Nat.iter n parent k) ≤ String.length k)%nat.
Proof.
  induction n as [|n IH]; cbn; [done|].
  etrans; [apply parent_not_longer|done].
Qed.

Lemma children_NoDup fs d : NoDup (children fs d).
Proof. apply NoDup_filter, NoDup_fst_map_to_list. Qed.

Lemma listing_NoDup fs d : NoDup (listing fs d).
Proof.
  unfold listing. destruct (is_directory fs d); [apply children_NoDup|].
  destruct (is_file fs d); [apply NoDup_singleton|apply NoDup_nil_2].
Qed.

(** Two entries of one listing have no path below them in common. *)
Lemma listing_apart fs d c1 c2 p n1 n2 :
  c1 ∈ listing fs d → c2 ∈ listing fs d →
  Nat.iter n1 parent p = c1 → Nat.iter n2 parent p = c2 →
  (n1 ≤ n2)%nat → c1 = c2.
Proof.
  unfold listing. destruct (is_directory fs d).
  - intros [[Hp1 Hne1] _]%elem_of_children [[Hp2 Hne2] _]%elem_of_children H1 H2 Hle.
    destruct (decide (n1 = n2)) as [->|Hn]; [congruence|].
    exfalso. replace n2 with (S (n2 - S n1) + n1)%nat in H2 by lia.
    rewrite Nat.iter_add, H1, Nat.iter_succ_r, Hp1 in H2.
    pose proof (iter_parent_not_longer (n2 - S n1) d) as Hlen. rewrite H2 in Hlen.
    pose proof (child_longer _ _ Hp2 Hne2). lia.
  - destruct (is_file fs d); [|by intros ?%elem_of_nil].
    intros ->%list_elem_of_singleton ->%list_elem_of_singleton. done.
Qed.

Lemma collect_NoDup {A B} (l : list A) (f : A → option (list B)) ys :
  collect l f = Some ys →
  NoDup l →
  (∀ x zs, x ∈ l → f x = Some zs → NoDup zs) →
  (∀ x1 x2 z1 z2 y, x1 ∈ l → x2 ∈ l → f x1 = Some z1 → f x2 = Some z2 →
     y ∈ z1 → y ∈ z2 → x1 = x2) →
  NoDup ys.
Proof.
  revert ys. induction l as [|x l IH]; intros ys Hc Hl Hnd Hdis; cbn in Hc.
  - injection Hc as <-. apply NoDup_nil_2.
  - destruct (f x) as [xs|] eqn:Ex; [|done].
    destruct (collect l f) as [zs|] eqn:Ez; [|done]. injection Hc as <-.
    apply NoDup_cons in Hl as [Hx Hl].
    apply NoDup_app. split; [|split].
    + apply (Hnd x); [apply list_elem_of_here|done].
    + intros y Hy Hy'. apply (collect_elem_of _ _ _ y Ez) in Hy' as (x' & zs' & Hx' & Hf & Hy').
      assert (x = x') as <-; [|done].
      eapply (Hdis x x'); [apply list_elem_of_here|by apply list_elem_of_further|done..].
    + apply (IH zs eq_refl Hl).
      * intros x' zs' Hx'. apply Hnd. by apply list_elem_of_further.
      * intros x1 x2 z1 z2 y H1 H2. apply Hdis; by apply list_elem_of_further.
Qed.

Section WalkNoDup.

Variables (sel : string → bool) (fs : FS).

(** Every path the walk yields leads back to the root along [parent]. *)
Lemma walk_below limit : ∀ root ys p,
  walk sel fs limit root = Some ys → p ∈ ys → ∃ n, Nat.iter n parent p = root.
Proof.
  induction limit as [|limit IH]; intros root ys p Hw Hp; [done|].
  cbn [walk] in Hw.
  apply (collect_elem_of _ _ _ p Hw) in Hp as (child & zs & Hin & Hf & Hp).
  assert (∃ m, Nat.iter m parent child = root) as [m Hm].
  { unfold listing in Hin. destruct (is_directory fs root).
    - apply elem_of_children in Hin as [[Hpar _] _]. by exists 1.
    - destruct (is_file fs root); [|by apply elem_of_nil in Hin].
      apply list_elem_of_singleton in Hin as ->. by exists 0. }
  destruct (is_directory fs child).
  - destruct (IH _ _ _ Hf Hp) as [n Hn]. exists (m + n)%nat.
    by rewrite Nat.iter_add, Hn.
  - injection Hf as <-. destruct (sel child); [|by apply elem_of_nil in Hp].
    apply list_elem_of_singleton in Hp as ->. by exists m.
Qed.

Lemma walk_NoDup limit : ∀ root ys,
  walk sel fs limit root = Some ys → NoDup ys.
Proof.
  induction limit as [|limit IH]; intros root ys Hw; [done|].
  cbn [walk] in Hw. apply (collect_NoDup _ _ _ Hw).
  - apply listing_NoDup.
  - intros c zs _ Hf. destruct (is_directory fs c); [by eapply IH|].
    injection Hf as <-. destruct (sel c); [apply NoDup_singleton|apply NoDup_nil_2].
  - intros c1 c2 z1 z2 y H1 H2 Hf1 Hf2 Hy1 Hy2.
    assert (∀ c zs, (if is_directory fs c then walk sel fs limit c
                     else Some (if sel c then [c] else [])) = Some zs →
                    y ∈ zs → ∃ n, Nat.iter n parent y = c) as Hup.
    { intros c zs Hf Hy. destruct (is_directory fs c); [by eapply walk_below|].
      injection Hf as <-. destruct (sel c); [|by apply elem_of_nil in Hy].
      apply list_elem_of_singleton in Hy as ->. by exists 0. }
    destruct (Hup _ _ Hf1 Hy1) as [n1 Hn1]. destruct (Hup _ _ Hf2 Hy2) as [n2 Hn2].
    destruct (Nat.le_ge_cases n1 n2).
    + by eapply listing_apart.
    + symmetry. by eapply listing_apart.
Qed.

End WalkNoDup.

Lemma walk_ext (sel sel' : string → bool) fs :
  (∀ p, sel p = sel' p) → ∀ limit root, walk sel fs limit root = walk sel' fs limit root.
Proof.
  intros Hsel. induction limit as [|limit IH]; intros root; [done|].
  cbn [walk]. induction (listing fs root) as [|c l IHl]; [done|].
  cbn [collect]. by rewrite IHl, IH, Hsel.
Qed.

(** The test of the code, [pattern and re.search(pattern, path) or not
    pattern], is the filter of the specification. *)
Lemma selected_wanted re_search pattern path :
  selected re_search pattern path = wanted re_search pattern path.
Proof. by destruct pattern as [[|c rx]|]. Qed.

(** [tree] on an open session returns the walk of the specification. *)
Lemma tree_run_walk re_search pattern source h s sv lg limit w :
  live w h s → cursor_ok w s →
  (max_len (fs_of w (s_host s)) < limit)%nat →
  ∃ ys w',
    tree re_search limit source pattern (Some h) sv lg 0 w = (Ok ys, w') ∧
    walk (wanted re_search pattern) (fs_of w (s_host s)) limit
      (resolve (s_cwd s) source) = Some ys ∧
    hosts w' = hosts w.
Proof.
  intros Hl Hc Hlim.
  destruct (walk_total (wanted re_search pattern) (fs_of w (s_host s)) limit
              (resolve (s_cwd s) source)) as [ys Hw]; [lia..|].
  destruct (tree_func_walk re_search pattern h s limit source 0 w ys) as [evs Hrun];
    [done..| |].
  { rewrite <- Hw. apply walk_ext, selected_wanted. }
  by eexists ys, _.
Qed.

(** The walk of the scenario, for any filter. *)
Lemma scenario_walk_run (sel : string → bool) :
  walk sel scenario_fs 11 "/" =
    Some ((if sel "/a.csv" then ["/a.csv"] else []) ++
          (if sel "/a.txt" then ["/a.txt"] else []) ++
          ((if sel "/dir/b.txt" then ["/dir/b.txt"] else []) ++ []) ++ []).
Proof. vm_compute. reflexivity. Qed.

(** The scenario of the specification, for every matcher that finds
    [\.txt$] in the two paths ending in [.txt] and not in the third. *)
Lemma scenario_tree_run (re_search : string → string → bool) :
  re_search "\.txt$" "/a.txt" = true →
  re_search "\.txt$" "/a.csv" = false →
  re_search "\.txt$" "/dir/b.txt" = true →
  (tree re_search 11 "/" (Some "\.txt$") (Some 0) None None 0 scenario).1 =
    Ok ["/a.txt"; "/dir/b.txt"].
Proof.
  intros Ha Hc Hb.
  destruct (tree_run_walk re_search (Some "\.txt$") "/" 0 session0 None None 11 scenario)
    as (ys & w' & -> & Hw & _).
  - split; reflexivity.
  - split; reflexivity.
  - vm_compute. lia.
  - assert (fs_of scenario (s_host session0) = scenario_fs) as Efs
      by (vm_compute; reflexivity).
    rewrite Efs in Hw. change (resolve (s_cwd session0) "/") with "/" in Hw.
    rewrite scenario_walk_run in Hw. cbn [wanted] in Hw.
    rewrite Ha, Hc, Hb in Hw. cbn in Hw. injection Hw as <-. done.
Qed.

(** C7.  On an open session and with room for the recursion, [tree] returns
    the depth-first walk of the specification: with a pattern, exactly the
    paths under the root that are not directories and in which
    [re.search] finds the pattern; without one (none, or the empty one),
    exactly the paths under the root that are not directories; each path
    once, and no directory.  In particular, for the tree with the files
    [a.txt], [a.csv] and [dir/b.txt] and the pattern [\.txt$], the walk
    yields [a.txt] and [dir/b.txt] and nothing else, whatever the matcher
    does on other patterns and paths. *)
Theorem tree_yields_selected_files re_search pattern source h s sv lg limit w :
  live w h s → cursor_ok w s →
  (max_len (fs_of w (s_host s)) < limit)%nat →
  let fs := fs_of w (s_host s) in
  let root := resolve (s_cwd s) source in
  (∃ ys w',
     tree re_search limit source pattern (Some h) sv lg 0 w = (Ok ys, w') ∧
     walk (wanted re_search pattern) fs limit root = Some ys ∧
     NoDup ys ∧
     (∀ rx, pattern = Some rx → rx ≠ "" →
            ∀ p, p ∈ ys ↔ under fs root p ∧ re_search rx p = true) ∧
     (pattern = None ∨ pattern = Some "" → ∀ p, p ∈ ys ↔ under fs root p) ∧
     (∀ p, p ∈ ys → is_directory fs p = false) ∧
     hosts w' = hosts w) ∧
  (re_search "\.txt$" "/a.txt" = true →
   re_search "\.txt$" "/a.csv" = false →
   re_search "\.txt$" "/dir/b.txt" = true →
   (tree re_search 11 "/" (Some "\.txt$") (Some 0) None None 0 scenario).1 =
     Ok ["/a.txt"; "/dir/b.txt"]).
Proof.
  intros Hl Hc Hlim fs root. split; [|apply scenario_tree_run].
  destruct (tree_run_walk re_search pattern source h s sv lg limit w)
    as (ys & w' & Hrun & Hw & Hh); [done..|].
  fold fs root in Hw.
  assert (∀ p, p ∈ ys ↔ under fs root p ∧ wanted re_search pattern p = true) as Hiff.
  { intros p. split.
    - by apply (walk_sound _ _ limit).
    - intros [Hu Hs]. by apply (walk_complete _ _ _ _ Hu Hs limit). }
  exists ys, w'. split; [exact Hrun|]. split; [done|].
  split; [by eapply walk_NoDup|]. split; [|split; [|split]].
  - intros rx -> Hrx p. rewrite Hiff. by destruct rx.
  - intros [-> | ->] p; rewrite Hiff; cbn; tauto.
  - intros p Hp. apply Hiff in Hp as [Hu _]. by eapply under_not_directory.
  - done.
Qed.

Lemma tree_yields_selected_files_witness :
  let run := tree re_search_simple 11 "/" (Some "\.txt$") (Some 0) None None 0 scenario in
  run.1 = Ok ["/a.txt"; "/dir/b.txt"] ∧
  walk (wanted re_search_simple (Some "\.txt$")) scenario_fs 11 "/" =
    Some ["/a.txt"; "/dir/b.txt"] ∧
  (∀ p, p ∈ ["/a.txt"; "/dir/b.txt"] ↔
        under scenario_fs "/" p ∧ re_search_simple "\.txt$" p = true) ∧
  (∀ p, p ∈ ["/a.txt"; "/dir/b.txt"] → is_directory scenario_fs p = false) ∧
  hosts run.2 = hosts scenario.
Proof.
  intros run.
  destruct (tree_yields_selected_files re_search_simple (Some "\.txt$") "/" 0 session0
              None None 11 scenario) as [(ys & w' & Ht & Hw & _ & Hrx & _ & Hd & Hh) Hsc].
  - split; reflexivity.
  - split; reflexivity.
  - vm_compute. lia.
  - assert (fs_of scenario (s_host session0) = scenario_fs) as Efs
      by (vm_compute; reflexivity).
    assert (resolve (s_cwd session0) "/" = "/") as Er by reflexivity.
    rewrite Efs in Hw, Hrx, Hd. rewrite Er in Hw, Hrx.
    assert (run.1 = Ok ["/a.txt"; "/dir/b.txt"]) as Erun
      by (apply Hsc; vm_compute; reflexivity).
    assert (ys = ["/a.txt"; "/dir/b.txt"]) as ->.
    { subst run. rewrite Ht in Erun. by injection Erun. }
    split; [done|]. split; [done|]. split; [by apply Hrx|]. split; [done|].
    subst run. by rewrite Ht.
Defined.

(** ** The batch *)

Lemma run_pool_app worker s1 s2 st :
  run_pool worker (s1 ++ s2) st = run_pool worker s2 (run_pool worker s1 st).
Proof. revert st. induction s1 as [|i s1 IH]; intros st; [done|]. apply IH. Qed.

(** A worker takes items from the head of the queue and puts none back. *)
Lemma worker_step_queue op ftp sv lg p q w p' q' w' :
  worker_step op ftp sv lg p q w = Some (p', q', w') →
  q' = q ∨ ∃ data, q = data :: q'.
Proof.
  unfold worker_step. intros H.
  destruct (p_pc p); try done.
  - destruct (bind _ _ w) as [[]]; injection H as <- <- <-; by left.
  - destruct q; [destruct (leave_with _ _ _)|]; injection H as <- <- <-; by left.
  - destruct q as [|data q]; [done|]. right. exists data.
    destruct (retry_loop _ _ _ _ _ _) as [[[] ?] ?];
      [|destruct (leave_with _ _ _)]; by injection H as <- <- <-.
Qed.

Lemma pool_step_queue worker i st :
  (∀ p q w p' q' w', worker p q w = Some (p', q', w') → q' = q ∨ ∃ d, q = d :: q') →
  ∃ taken, queue st = taken ++ queue (pool_step worker i st).
Proof.
  intros Hw. unfold pool_step. destruct (procs st !! i) as [p|]; [|by exists []].
  destruct (worker p (queue st) (world st)) as [[[p' q'] w']|] eqn:E; [|by exists []].
  destruct (Hw _ _ _ _ _ _ E) as [->|[d ->]]; [by exists []|by exists [d]].
Qed.

(** Every item is dequeued at most once: whatever the schedule, the queue
    is what is left of the initial queue after taking items off its
    head. *)
Lemma run_pool_queue worker sched st :
  (∀ p q w p' q' w', worker p q w = Some (p', q', w') → q' = q ∨ ∃ d, q = d :: q') →
  ∃ taken, queue st = taken ++ queue (run_pool worker sched st).
Proof.
  intros Hw. revert st. induction sched as [|i sched IH]; intros st; [by exists []|].
  cbn [run_pool]. destruct (pool_step_queue worker i st Hw) as [t1 H1].
  destruct (IH (pool_step worker i st)) as [t2 H2].
  exists (t1 ++ t2). by rewrite <- app_assoc, <- H2.
Qed.

(** A worker that stands at [queue.get(True)] when the queue is empty
    stands there for ever: nothing is ever put on the queue again. *)
Lemma blocked_for_ever op ftp sv lg sched : ∀ st i h r,
  queue st = [] →
  procs st !! i = Some (mkProc (AtGet h) r) →
  let st' := run_pool (worker_step op ftp sv lg) sched st in
  queue st' = [] ∧ procs st' !! i = Some (mkProc (AtGet h) r).
Proof.
  induction sched as [|j sched IH]; intros st i h r Hq Hp; [done|].
  cbn [run_pool]. apply IH.
  - destruct (pool_step_queue (worker_step op ftp sv lg) j st) as [taken Ht].
    { intros. by eapply worker_step_queue. }
    rewrite Hq in Ht. symmetry in Ht. by apply app_eq_nil in Ht as [_ ?].
  - unfold pool_step. destruct (procs st !! j) as [p|] eqn:Ej; [|done].
    destruct (decide (j = i)) as [->|Hne].
    + rewrite Hp in Ej. injection Ej as <-. by rewrite Hq.
    + destruct (worker_step _ _ _ _ _ _ _) as [[[p' q'] w']|]; [|done].
      cbn. by rewrite list_lookup_insert_ne.
Qed.

Lemma forallb_finished_at l i p :
  l !! i = Some p → finished p = false → forallb finished l = false.
Proof.
  revert i. induction l as [|x l IH]; intros [|i] Hi Hp; try done; cbn in *.
  - injection Hi as ->. by rewrite Hp.
  - rewrite (IH i) by done. by destruct (finished x).
Qed.

(** What the parent process gets back: the list it created, which no
    statement of [_ftp_multiple] and no worker of the pool changes. *)
Lemma _ftp_multiple_returns sched files typ force mk ftp sv lg w r :
  (_ftp_multiple sched files typ force mk ftp sv lg w).1 = Ok (Some r) → r = [].
Proof.
  unfold _ftp_multiple.
  destruct (if String.eqb typ "upload" then _ else _); [|done].
  destruct (Nat.eqb _ 0); [done|]. destruct (forallb _ _); [|done].
  cbn. congruence.
Qed.

Lemma upload_multiple_run sched files force mk ftp sv lg w :
  connections w ≠ 0 →
  upload_multiple sched files force mk ftp sv lg w =
    (let st := run_pool (_ftp_worker_upload ftp sv lg) sched
                 (start_pool files force mk [] w) in
     (Ok (if forallb finished (procs st) then Some [] else None), world st)).
Proof.
  intros Hn. unfold upload_multiple, _ftp_multiple.
  rewrite String.eqb_refl. destruct (Nat.eqb_spec (connections w) 0); [done|].
  cbn zeta. by destruct (forallb _ _).
Qed.

(** C1, at the scenario of the specification.  The batch
    [{"/local/x": "/remote/x"}] with [/remote/x] present and [force=False]:
    the worker that takes the item fails all its attempts, appends
    ["/local/x"] to the list of its own process, and ends on the unbound
    [e]; the remote file is unchanged; and the call returns the empty
    list. *)
Theorem batch_upload_of_existing_file_returns_empty :
  let files := [("/local/x", "/remote/x")] in
  let pool := run_pool (_ftp_worker_upload None None None) one_by_one
                (start_pool files false false [] site) in
  procs pool !! 0 = Some (mkProc (Crashed UnboundLocalError) ["/local/x"]) ∧
  fs_of (world pool) "ftp.example" !! "/remote/x" = Some (File "old") ∧
  upload_multiple one_by_one files false false None None None site =
    (Ok (Some []), world pool).
Proof. vm_compute. done. Qed.

(** A worker ends on the first item it gives up on.  With one worker, a
    batch whose first item fails for good is left with its second item on
    the queue: that item is never attempted, and it is not in the list the
    call returns. *)
Example batch_drops_items_after_a_failure :
  let files := [("/local/x", "/remote/x"); ("x.txt", "/remote/z")] in
  let pool := run_pool (_ftp_worker_upload None None None) [0; 0; 0]
                (start_pool files false false [] site_single) in
  queue pool = [mkItem "x.txt" "/remote/z" false false] ∧
  forallb finished (procs pool) = true ∧
  fs_of (world pool) "ftp.example" !! "/remote/z" = None ∧
  (upload_multiple [0; 0; 0] files false false None None None site_single).1 =
    Ok (Some []).
Proof. vm_compute. done. Qed.

(** C8, where it fails.  A batch of one item and the pool of five: when
    the workers all see the queue non-empty before the first of them takes
    the item, the others stand at [queue.get(True)] on an empty queue, and
    however the schedule goes on, worker 1 never leaves it and the call
    never returns. *)
Theorem batch_workers_block_on_drained_queue sched :
  let files := [("/local/x", "/remote/y")] in
  let pool := run_pool (_ftp_worker_upload None None None) (all_check_first ++ sched)
                (start_pool files false false [] site) in
  queue pool = [] ∧
  procs pool !! 1 = Some (mkProc (AtGet 1) []) ∧
  (upload_multiple (all_check_first ++ sched) files false false None None None site).1 =
    Ok None.
Proof.
  intros files pool.
  assert (queue pool = [] ∧ procs pool !! 1 = Some (mkProc (AtGet 1) [])) as [Hq Hp].
  { subst pool. rewrite run_pool_app. apply blocked_for_ever; by vm_compute. }
  split; [done|]. split; [done|].
  rewrite upload_multiple_run by (vm_compute; lia). cbn zeta. fold files pool.
  by rewrite (forallb_finished_at _ _ _ Hp).
Qed.

(** ** The overwrite policy *)

(** [upload] without [force] onto a destination that the listing shows:
    [FileExistsError], after the one [NLST]; nothing is opened, nothing is
    stored. *)
Lemma upload_refuses_listed source dest mk h s sv lg close w :
  live w h s →
  listing (fs_of w (s_host s)) (resolve (s_cwd s) dest) ≠ [] →
  upload source dest false mk (Some h) sv lg close w =
    (Raise FileExistsError, after_quit close h s (emit (Sent h (NLST dest)) w)).
Proof.
  intros Hl Hls. unfold upload, ftp_object. rewrite bind_run, bind_run.
  rewrite (ls_run w h s) by done. cbn [after_quit].
  destruct (listing _ _) as [|x l]; [done|]. cbn [nonempty ret].
  unfold ret. cbv beta iota. rewrite bind_run, (quit_run _ _ _ s) by done. done.
Qed.

(** [download] without [force] onto a local file: [FileExistsError],
    after [TYPE I]; nothing is retrieved and the local files are as they
    were. *)
Lemma download_refuses_existing source dest mk h s sv lg close w :
  live w h s →
  is_file (local w) dest = true →
  ∃ w', download source dest false mk (Some h) sv lg close w = (Raise FileExistsError, w') ∧
        local w' = local w ∧ hosts w' = hosts w ∧
        trace w' = trace w ++ Sent h TYPE_I :: (if close then [Sent h QUIT] else []).
Proof.
  intros Hl Hf. unfold download, ftp_object, ftp_type_i. rewrite bind_run.
  rewrite (command_run w h s) by done. cbn [put_session].
  set (w1 := set_sessions _ _).
  assert (live w1 h (set_binary true s)) as Hl1.
  { destruct Hl as [Hs Ho]. split; [|done]. subst w1. cbn.
    apply list_lookup_insert_eq. by eapply lookup_lt_Some. }
  rewrite bind_run. unfold os_path_isfile at 1.
  change (local w1) with (local w). rewrite Hf. cbn [andb negb].
  rewrite bind_run, (quit_run _ _ _ (set_binary true s)) by done.
  eexists. split; [done|]. destruct close; cbn; by rewrite <- ?app_assoc.
Qed.

(** C3, where it fails.  With [force=True] and [makedirs=True] (the
    default) a destination given as a bare file name cannot be written,
    although it exists.  [download]: [os.path.dirname] of the name is the
    empty string, which does not exist, so [os.makedirs('')] is called and
    raises.  [upload]: [rsplit('/', 1)[0]] of the name is the name itself,
    which is not a directory, so [mkdirs] sends [MKD] for the name of the
    existing file.  Both destinations are left as they were. *)
Theorem overwrite_of_bare_destination_fails :
  let d := download "/remote/x" "x.txt" true true (Some 0) None None false site_open in
  let u := upload "/local/x" "x" true true (Some 0) None None false site_in_remote in
  (is_file (local site_open) "x.txt" = true ∧
   d.1 = Raise FileNotFoundError ∧
   local d.2 !! "x.txt" = Some (File "mine")) ∧
  (listing (fs_of site_in_remote "ftp.example") (resolve "/remote" "x") = ["/remote/x"] ∧
   u.1 = Raise error_perm ∧
   fs_of u.2 "ftp.example" !! "/remote/x" = Some (File "old")).
Proof. vm_compute. done. Qed.

(** With [force=True] and no directories to make, [upload] stores the
    local file: the destination then holds the content of the source. *)
Lemma upload_overwrites source dest content h s sv lg close w :
  live w h s →
  local w !! source = Some (File content) →
  is_directory (fs_of w (s_host s)) (resolve (s_cwd s) dest) = false →
  is_directory (fs_of w (s_host s)) (parent (resolve (s_cwd s) dest)) = true →
  ∃ w', upload source dest true false (Some h) sv lg close w = (Ok tt, w') ∧
        fs_of w' (s_host s) !! resolve (s_cwd s) dest = Some (File content).
Proof.
  intros Hl Hsrc Hnd Hpd. unfold upload, ftp_object.
  rewrite bind_run. unfold ret at 1. cbv beta iota zeta. cbn [when].
  rewrite bind_run. unfold ret at 1. cbv beta iota.
  rewrite bind_run, (ls_run w h s) by done. cbn [after_quit].
  set (w1 := emit _ w).
  rewrite bind_run. unfold log at 1. cbv beta iota.
  set (w2 := set_LOG _ w1).
  unfold ftp_type_i. rewrite bind_run, (command_run w2 h s) by done. cbn [put_session].
  set (w3 := set_sessions _ _).
  assert (live w3 h (set_binary true s)) as Hl3.
  { destruct Hl as [Hs Ho]. split; [|done]. subst w3. cbn.
    apply list_lookup_insert_eq. by eapply lookup_lt_Some. }
  rewrite bind_run. unfold open_rb.
  change (local (emit (Opened source rb) w3)) with (local w). rewrite Hsrc.
  set (w4 := emit _ w3).
  unfold ftp_storbinary. rewrite bind_run, (command_run w4 h (set_binary true s)) by done.
  cbn [s_host s_cwd set_binary].
  change (fs_of (emit (Sent h (STOR dest)) w4)) with (fs_of w).
  rewrite Hnd, Hpd.
  set (w5 := set_fs _ _ _).
  assert (live w5 h (set_binary true s)) as Hl5 by done.
  rewrite (quit_run _ _ _ (set_binary true s)) by done.
  eexists. split; [done|].
  assert (fs_of w5 (s_host s) !! resolve (s_cwd s) dest = Some (File content)) as H5.
  { subst w5. by rewrite fs_of_set_fs, lookup_insert_eq. }
  by destruct close.
Qed.

(** With [force=True], onto a local file whose directory exists,
    [download] writes the remote file: the destination then holds the
    content of the source. *)
Lemma download_overwrites source dest content mk h s sv lg close w :
  live w h s →
  is_file (local w) dest = true →
  is_directory (local w) dest = false →
  local_exists (local w) (PyStr.dirname dest) = true →
  is_directory (local w) (PyStr.dirname dest) = true →
  fs_of w (s_host s) !! resolve (s_cwd s) source = Some (File content) →
  ∃ w', download source dest true mk (Some h) sv lg close w = (Ok tt, w') ∧
        local w' !! dest = Some (File content).
Proof.
  intros Hl Hf Hnd Hex Hdir Hsrc. unfold download, ftp_object, ftp_type_i.
  rewrite bind_run, (command_run w h s) by done. cbn [put_session].
  set (w1 := set_sessions _ _).
  assert (live w1 h (set_binary true s)) as Hl1.
  { destruct Hl as [Hs Ho]. split; [|done]. subst w1. cbn.
    apply list_lookup_insert_eq. by eapply lookup_lt_Some. }
  rewrite bind_run. unfold os_path_isfile at 1.
  change (local w1) with (local w). rewrite Hf. cbn [andb negb].
  rewrite bind_run. unfold os_path_exists.
  change (local w1) with (local w). rewrite Hex. cbn [negb andb when].
  rewrite bind_run. unfold ret at 1. cbv beta iota.
  rewrite bind_run. unfold os_path_isfile.
  change (local w1) with (local w). rewrite Hf.
  rewrite bind_run. unfold log at 1. cbv beta iota.
  set (w2 := set_LOG _ w1).
  rewrite bind_run. unfold open_wb.
  change (local (emit (Opened dest wb) w2)) with (local w).
  assert (String.eqb dest "" = false) as ->.
  { apply String.eqb_neq. intros ->. done. }
  rewrite Hnd, Hdir, orb_true_r.
  set (w3 := set_local _ _).
  assert (live w3 h (set_binary true s)) as Hl3 by done.
  unfold ftp_retrbinary. rewrite bind_run, (command_run w3 h (set_binary true s)) by done.
  cbn [s_host s_cwd set_binary].
  change (fs_of (emit (Sent h (RETR source)) w3)) with (fs_of w). rewrite Hsrc.
  rewrite bind_run. unfold file_write at 1.
  set (w5 := set_local _ _).
  assert (live w5 h (set_binary true s)) as Hl5 by done.
  rewrite (quit_run _ _ _ (set_binary true s)) by done.
  eexists. split; [done|].
  assert (local w5 !! dest = Some (File content)) as H5.
  { subst w5. cbn. by rewrite lookup_insert_eq. }
  by destruct close.
Qed.
